(** * Artist resolution and enrichment: [src/artist_manager.py]

    A shallow embedding of [ArtistManager] and the properties of its
    cache-then-enrich-then-persist flow.

    Python dictionaries are finite maps from keys to Python values, the three
    SQLite tables are lists of rows in rowid order, and every method is a
    computation in a state-and-exception monad over a [world]: the committed
    database file, the working copy of the open connection, the wall clock
    and a log of the external interactions (SQL statements, catalog
    searches, adapter calls, printed diagnostics), most recent first. *)

From Stdlib Require Import ZArith String Ascii List Floats.
From stdpp Require Import base gmap strings list.

Set Warnings "-inexact-float".
Open Scope string_scope.
Open Scope list_scope.

(** ** Python values *)

(** [datetime.now()] is an input of the model: a reading of the clock. *)
Definition datetime := Z.
Bind Scope Z_scope with datetime.

(** The Python values that occur as dictionary values in this module. *)
Inductive pyval :=
| VStr (s : string)
| VBool (b : bool)
| VInt (z : Z)
| VFloat (f : float)
| VDatetime (t : datetime)
| VStrList (l : list string)
| VVenueList (l : list (string * datetime)).

(** A Python [dict] with string keys. *)
Abbreviation dict := (gmap string pyval).

Inductive exn :=
| KeyError (key : string)
| TypeError
| InterfaceError
| SpotifyException
| IntegrityError (msg : string)
| OperationalError.

(** A string is the UTF-8 text of a Python [str]: equality, concatenation
    and SQLite's binary collation are those of the bytes. *)
Fixpoint all_chars (p : ascii -> bool) (s : string) : bool :=
  match s with
  | EmptyString => true
  | String c s' => p c && all_chars p s'
  end.

(** An ASCII character is one byte below 128. *)
Definition is_ascii (c : ascii) : bool := (nat_of_ascii c <? 128)%nat.

(** [str.lower] of a text of ASCII characters, which only changes the
    letters A to Z; on other text [str.lower] follows the Unicode tables
    and is the [str_lower] of the runtime. *)
Definition lower_ascii (c : ascii) : ascii :=
  let n := nat_of_ascii c in
  if (65 <=? n)%nat && (n <=? 90)%nat then ascii_of_nat (n + 32) else c.

Fixpoint lower (s : string) : string :=
  match s with
  | EmptyString => EmptyString
  | String c s' => String (lower_ascii c) (lower s')
  end.

(** Truthiness of the optional [venue] argument in [if venue:]: [None] and
    the empty string are false. *)
Definition truthy (venue : option string) : bool :=
  match venue with
  | None => false
  | Some v => negb (String.eqb v "")
  end.

(** ** The database *)

Record artist_row := {
  a_id : Z;
  a_name : string;
  a_is_local : bool;
  a_verification_source : string;
  a_last_updated : datetime }.

Record genre_row := {
  g_artist_id : Z;
  g_genre : string;
  g_confidence : float;
  g_source : string }.

Record venue_row := {
  v_artist_id : Z;
  v_venue : string;
  v_last_played : datetime }.

Record DB := {
  artists : list artist_row;
  artist_genres : list genre_row;
  artist_venues : list venue_row }.

(** [setup_database] on a fresh file: the three tables, empty. *)
Definition empty_db : DB :=
  {| artists := []; artist_genres := []; artist_venues := [] |}.

(** The rowid SQLite gives to a row inserted without one into a table with
    an [INTEGER PRIMARY KEY]: 1 in an empty table, otherwise one more than
    the largest rowid in use (as long as that is not the largest 64-bit
    integer, which the model leaves out). *)
Definition next_rowid (rows : list artist_row) : Z :=
  match map a_id rows with
  | [] => 1
  | i :: ids => 1 + fold_right Z.max i ids
  end.

(** [SELECT * FROM artists WHERE name = ?] followed by [fetchone]. The
    comparison is SQLite's default binary collation. *)
Definition select_artist (name : string) (d : DB) : option artist_row :=
  find (fun r => String.eqb (a_name r) name) (artists d).

(** [SELECT genre FROM artist_genres WHERE artist_id = ?]. *)
Definition select_genres (id : Z) (d : DB) : list string :=
  map g_genre (filter (fun r => g_artist_id r = id) (artist_genres d)).

(** [SELECT venue, last_played FROM artist_venues WHERE artist_id = ?]. *)
Definition select_venues (id : Z) (d : DB) : list (string * datetime) :=
  map (fun r => (v_venue r, v_last_played r))
      (filter (fun r => v_artist_id r = id) (artist_venues d)).

Definition unique_name_failed : exn :=
  IntegrityError "UNIQUE constraint failed: artists.name".

(** [INSERT INTO artists (name, is_local, verification_source,
    last_updated)]: refused by the [UNIQUE] constraint on [name], otherwise
    the row is appended under a new rowid, which becomes [lastrowid]. *)
Definition insert_artist (name : string) (is_local : bool) (source : string)
    (now : datetime) (d : DB) : exn + (Z * DB) :=
  if existsb (fun r => String.eqb (a_name r) name) (artists d)
  then inl unique_name_failed
  else
    let id := next_rowid (artists d) in
    inr (id, {| artists := artists d ++
                  [{| a_id := id; a_name := name; a_is_local := is_local;
                      a_verification_source := source;
                      a_last_updated := now |}];
                artist_genres := artist_genres d;
                artist_venues := artist_venues d |}).

(** [INSERT INTO artist_genres]. The table has no constraint. *)
Definition insert_genre (r : genre_row) (d : DB) : DB :=
  {| artists := artists d;
     artist_genres := artist_genres d ++ [r];
     artist_venues := artist_venues d |}.

(** [INSERT INTO artist_venues]. SQLite does not enforce the foreign key
    unless asked to, and the module never asks. *)
Definition insert_venue (r : venue_row) (d : DB) : DB :=
  {| artists := artists d;
     artist_genres := artist_genres d;
     artist_venues := artist_venues d ++ [r] |}.

(** ** The world and its monad *)

Inductive adapter := Social | VenueHistory.

Inductive event :=
| EvSelectArtist (name : string)
| EvSelectGenres (id : Z)
| EvSelectVenues (id : Z)
| EvInsertArtist (name : string)
| EvInsertGenre (id : Z) (genre : string)
| EvInsertVenue (id : Z) (venue : string)
| EvCommit
| EvRollback
| EvSpotifySearch (q : string)
| EvAdapter (a : adapter) (name : string)
| EvPrintDatabaseError (e : exn)
| EvPrintSpotifyError (e : exn).

(** [db] is the committed content of the database file and [txn] the
    content as the open connection sees it. [fault] counts the statements
    the open connection still executes before SQLite raises an error of its
    own (disk, lock), and [faults] plans it for the connections opened
    later; an empty plan is a store that never fails by itself. Opening a
    connection, rolling back and closing always succeed. *)
Record world := {
  db : DB;
  txn : DB;
  fault : option nat;
  faults : list (option nat);
  clock : datetime;
  log : list event }.

Inductive result (A : Type) :=
| Ok (a : A)
| Raise (e : exn).
Arguments Ok {A} a.
Arguments Raise {A} e.

Definition M (A : Type) : Type := world -> result A * world.

Definition ret {A} (a : A) : M A := fun w => (Ok a, w).

Definition bind {A B} (m : M A) (k : A -> M B) : M B :=
  fun w =>
    match m w with
    | (Ok a, w') => k a w'
    | (Raise e, w') => (Raise e, w')
    end.

Definition raise {A} (e : exn) : M A := fun w => (Raise e, w).

(** [try: m except Exception as e: h e]. *)
Definition try_except {A} (m : M A) (h : exn -> M A) : M A :=
  fun w =>
    match m w with
    | (Ok a, w') => (Ok a, w')
    | (Raise e, w') => h e w'
    end.

Declare Scope py_scope.
Delimit Scope py_scope with py.
Notation "x <- c1 ;; c2" := (bind c1 (fun x => c2))
  (at level 100, c1 at next level, right associativity) : py_scope.
Notation "c1 ;; c2" := (bind c1 (fun _ => c2))
  (at level 100, right associativity) : py_scope.
Open Scope py_scope.

Fixpoint for_each {A} (l : list A) (body : A -> M unit) : M unit :=
  match l with
  | [] => ret tt
  | x :: l' => body x ;; for_each l' body
  end.

Definition emit (e : event) : M unit :=
  fun w => (Ok tt, {| db := db w; txn := txn w; fault := fault w;
                      faults := faults w; clock := clock w;
                      log := e :: log w |}).

Definition datetime_now : M datetime := fun w => (Ok (clock w), w).

(** [d[k]] *)
Definition getitem (d : dict) (k : string) : M pyval :=
  match d !! k with
  | Some v => ret v
  | None => raise (KeyError k)
  end.

(** [sep.join(v)], for a list of strings. *)
Definition str_join (sep : string) (v : pyval) : M string :=
  match v with
  | VStrList l => ret (String.concat sep l)
  | _ => raise TypeError
  end.

(** Binding a Python value to a parameter of a statement. The rows of the
    model are typed as the schema declares the columns, and these are the
    types of the values the module binds to them and the types its methods
    declare for their parameters ([artist_id: int]). SQLite would store a
    value of another type as well; the model refuses it, and no property
    below is about such a value. *)
Definition bind_text (v : pyval) : M string :=
  match v with VStr s => ret s | _ => raise InterfaceError end.

Definition bind_boolean (v : pyval) : M bool :=
  match v with VBool b => ret b | _ => raise InterfaceError end.

Definition bind_integer (v : pyval) : M Z :=
  match v with VInt z => ret z | _ => raise InterfaceError end.

Definition bind_float (v : pyval) : M float :=
  match v with VFloat f => ret f | _ => raise InterfaceError end.

(** *** Connections *)

(** [sqlite3.connect(self.db_path)] *)
Definition connect : M unit :=
  fun w => (Ok tt, {| db := db w; txn := db w; fault := hd None (faults w);
                      faults := tl (faults w); clock := clock w;
                      log := log w |}).

(** One statement of the open connection: fails if the connection's fault
    is due. *)
Definition statement : M unit :=
  fun w =>
    match fault w with
    | Some O => (Raise OperationalError,
                 {| db := db w; txn := txn w; fault := None;
                    faults := faults w; clock := clock w; log := log w |})
    | Some (S k) => (Ok tt,
                 {| db := db w; txn := txn w; fault := Some k;
                    faults := faults w; clock := clock w; log := log w |})
    | None => (Ok tt, w)
    end.

Definition get_txn : M DB := fun w => (Ok (txn w), w).

Definition put_txn (d : DB) : M unit :=
  fun w => (Ok tt, {| db := db w; txn := d; fault := fault w;
                      faults := faults w; clock := clock w; log := log w |}).

(** [conn.commit()] *)
Definition commit : M unit :=
  emit EvCommit ;; statement ;;
  fun w => (Ok tt, {| db := txn w; txn := txn w; fault := fault w;
                      faults := faults w; clock := clock w; log := log w |}).

(** [conn.rollback()] *)
Definition rollback : M unit :=
  emit EvRollback ;;
  fun w => (Ok tt, {| db := db w; txn := db w; fault := fault w;
                      faults := faults w; clock := clock w; log := log w |}).

(** [conn.close()]: what was not committed is lost. *)
Definition close : M unit :=
  fun w => (Ok tt, {| db := db w; txn := db w; fault := None;
                      faults := faults w; clock := clock w; log := log w |}).

(** *** Statements *)

(** [c.execute('SELECT * FROM artists WHERE name = ?')], [c.fetchone()] *)
Definition execute_select_artist (name : string) : M (option artist_row) :=
  emit (EvSelectArtist name) ;; statement ;;
  d <- get_txn ;; ret (select_artist name d).

Definition execute_select_genres (id : Z) : M (list string) :=
  emit (EvSelectGenres id) ;; statement ;;
  d <- get_txn ;; ret (select_genres id d).

Definition execute_select_venues (id : Z) : M (list (string * datetime)) :=
  emit (EvSelectVenues id) ;; statement ;;
  d <- get_txn ;; ret (select_venues id d).

(** [c.execute('INSERT INTO artists ...')], [c.lastrowid] *)
Definition execute_insert_artist (name : string) (is_local : bool)
    (source : string) (now : datetime) : M Z :=
  emit (EvInsertArtist name) ;; statement ;;
  d <- get_txn ;;
  match insert_artist name is_local source now d with
  | inl e => raise e
  | inr (id, d') => put_txn d' ;; ret id
  end.

Definition execute_insert_genre (r : genre_row) : M unit :=
  emit (EvInsertGenre (g_artist_id r) (g_genre r)) ;; statement ;;
  d <- get_txn ;; put_txn (insert_genre r d).

Definition execute_insert_venue (r : venue_row) : M unit :=
  emit (EvInsertVenue (v_artist_id r) (v_venue r)) ;; statement ;;
  d <- get_txn ;; put_txn (insert_venue r d).

(** ** The catalog client *)

(** An item of [results['artists']['items']]. *)
Record spotify_artist := {
  sp_name : string;
  sp_genres : list string;
  sp_popularity : Z;
  sp_id : string }.

(** What [spotify.search(q, type='artist', limit=1)] does: it raises, or it
    returns the list of items. *)
Inductive search_result :=
| SearchRaises
| SearchItems (items : list spotify_artist).

(** What the process fixes once and for all: the catalog client built by
    [__init__] ([None] when it is not configured); the interpreter's
    [str.lower], which follows the Unicode tables and is only known here to
    be [lower] on a text of ASCII characters; and the order in which the
    interpreter iterates over [set(l)], which depends on the hashes of
    the strings and is only known to enumerate the elements of [l] once
    each. *)
Class runtime := {
  spotify : option (string -> search_result);
  str_lower : string -> string;
  str_lower_ascii :
    forall s, all_chars is_ascii s = true -> str_lower s = lower s;
  set_iter : list string -> list string;
  set_iter_NoDup : forall l, NoDup (set_iter l);
  set_iter_elem : forall l x, x ∈ set_iter l <-> x ∈ l }.

(** Fragment of a social-media or venue-history check. *)
Record fragment := {
  f_genres : list string;
  f_sources : list string;
  f_is_local : bool }.

Section ArtistManager.

Context {rt : runtime}.

(** [set(v)], iterated. *)
Definition py_set (v : pyval) : M (list string) :=
  match v with
  | VStrList l => ret (set_iter l)
  | _ => raise TypeError
  end.

Definition as_bool (v : pyval) : M bool :=
  match v with VBool b => ret b | _ => raise TypeError end.

Definition as_strlist (v : pyval) : M (list string) :=
  match v with VStrList l => ret l | _ => raise TypeError end.

Definition print_database_error (e : exn) : M unit :=
  emit (EvPrintDatabaseError e).

Definition print_spotify_error (e : exn) : M unit :=
  emit (EvPrintSpotifyError e).

(** [self.spotify.search(q=artist_name, type='artist', limit=1)] *)
Definition spotify_search (client : string -> search_result) (q : string)
    : M (list spotify_artist) :=
  emit (EvSpotifySearch q) ;;
  match client q with
  | SearchRaises => raise SpotifyException
  | SearchItems items => ret items
  end.

Definition get_spotify_info (artist_name : string) : M (option dict) :=
  match spotify with
  | None => ret None
  | Some client =>
    try_except
      (items <- spotify_search client artist_name ;;
       match items with
       | artist :: _ =>
         ret (Some (<["genres" := VStrList (sp_genres artist)]>
                   (<["popularity" := VInt (sp_popularity artist)]>
                   (<["spotify_id" := VStr (sp_id artist)]>
                   (<["confidence" :=
                        VFloat (if String.eqb (str_lower (sp_name artist))
                                              (str_lower artist_name)
                                then 0.8%float else 0.5%float)]> ∅)))))
       | [] => ret None
       end)
      (fun e => print_spotify_error e ;; ret None)
  end.

Definition check_social_media (artist_name : string) : M (option fragment) :=
  emit (EvAdapter Social artist_name) ;;
  let info := {| f_genres := []; f_sources := []; f_is_local := false |} in
  ret (match f_sources info with [] => None | _ => Some info end).

Definition check_venue_history (artist_name : string) : M (option fragment) :=
  emit (EvAdapter VenueHistory artist_name) ;;
  let info := {| f_genres := []; f_sources := []; f_is_local := false |} in
  ret (match f_sources info with [] => None | _ => Some info end).

Definition update_venue_info (artist_id : pyval) (venue : string) : M unit :=
  connect ;;
  try_except
    (now <- datetime_now ;;
     id <- bind_integer artist_id ;;
     execute_insert_venue
       {| v_artist_id := id; v_venue := venue; v_last_played := now |} ;;
     commit)
    (fun e => print_database_error e ;; rollback) ;;
  close.

(** The body of [if social_info:] and of [if venue_info:] in
    [gather_artist_info], which are the same code. *)
Definition merge_fragment (info : dict) (frag : fragment) : M dict :=
  v <- getitem info "is_local" ;;
  is_local <- as_bool v ;;
  let info := <["is_local" := VBool (is_local || f_is_local frag)]> info in
  info <- match f_genres frag with
          | [] => ret info
          | _ =>
            v <- getitem info "genres" ;;
            genres <- as_strlist v ;;
            ret (<["genres" := VStrList (genres ++ f_genres frag)]> info)
          end ;;
  v <- getitem info "sources" ;;
  sources <- as_strlist v ;;
  ret (<["sources" := VStrList (sources ++ f_sources frag)]> info).

Definition gather_artist_info (artist_name : string) (venue : option string)
    : M dict :=
  let info : dict :=
    <["name" := VStr artist_name]>
    (<["genres" := VStrList []]>
    (<["is_local" := VBool false]>
    (<["confidence" := VFloat 0.0%float]>
    (<["sources" := VStrList []]> ∅)))) in
  info <- match spotify with
          | Some _ =>
            spotify_info <- get_spotify_info artist_name ;;
            match spotify_info with
            | Some spotify_info =>
              let info := spotify_info ∪ info in
              v <- getitem info "sources" ;;
              sources <- as_strlist v ;;
              ret (<["sources" := VStrList (sources ++ ["spotify"])]> info)
            | None => ret info
            end
          | None => ret info
          end ;;
  social_info <- check_social_media artist_name ;;
  info <- match social_info with
          | Some social_info => merge_fragment info social_info
          | None => ret info
          end ;;
  venue_info <- check_venue_history artist_name ;;
  info <- match venue_info with
          | Some venue_info => merge_fragment info venue_info
          | None => ret info
          end ;;
  match venue with
  | Some v =>
    if truthy venue
    then id <- getitem info "id" ;; update_venue_info id v ;; ret info
    else ret info
  | None => ret info
  end.

(** The body of [for genre in set(artist_info['genres']):] in
    [save_artist_to_db]. *)
Definition save_genre (artist_info : dict) (artist_id : Z) (genre : string)
    : M unit :=
  confidence <- getitem artist_info "confidence" ;;
  v <- getitem artist_info "sources" ;;
  source <- str_join "," v ;;
  confidence <- bind_float confidence ;;
  execute_insert_genre
    {| g_artist_id := artist_id; g_genre := genre;
       g_confidence := confidence; g_source := source |}.

Definition save_artist_to_db (artist_info : dict) : M unit :=
  connect ;;
  try_except
    (name <- getitem artist_info "name" ;;
     is_local <- getitem artist_info "is_local" ;;
     v <- getitem artist_info "sources" ;;
     source <- str_join "," v ;;
     now <- datetime_now ;;
     name <- bind_text name ;;
     is_local <- bind_boolean is_local ;;
     artist_id <- execute_insert_artist name is_local source now ;;
     v <- getitem artist_info "genres" ;;
     genres <- py_set v ;;
     for_each genres (save_genre artist_info artist_id) ;;
     commit)
    (fun e => print_database_error e ;; rollback) ;;
  close.

Definition get_artist_from_db (artist_name : string) : M (option dict) :=
  connect ;;
  r <- try_except
    (artist <- execute_select_artist artist_name ;;
     match artist with
     | Some artist =>
       genres <- execute_select_genres (a_id artist) ;;
       venues <- execute_select_venues (a_id artist) ;;
       ret (Some (<["id" := VInt (a_id artist)]>
                 (<["name" := VStr (a_name artist)]>
                 (<["is_local" := VInt (Z.b2z (a_is_local artist))]>
                 (<["verification_source" :=
                      VStr (a_verification_source artist)]>
                 (<["last_updated" := VDatetime (a_last_updated artist)]>
                 (<["genres" := VStrList genres]>
                 (<["venues" := VVenueList venues]> ∅))))))))
     | None => ret None
     end)
    (fun e => print_database_error e ;; ret None) ;;
  close ;;
  ret r.

Definition process_artist (artist_name : string) (venue : option string)
    : M dict :=
  artist_info <- get_artist_from_db artist_name ;;
  match artist_info with
  | Some artist_info =>
    match venue with
    | Some v =>
      if truthy venue
      then id <- getitem artist_info "id" ;;
           update_venue_info id v ;; ret artist_info
      else ret artist_info
    | None => ret artist_info
    end
  | None =>
    artist_info <- gather_artist_info artist_name venue ;;
    save_artist_to_db artist_info ;;
    ret artist_info
  end.

(** [process_artist] next to another writer of the same database file: the
    lookup and the insert are two connections, and [other] is what the
    other writer commits between the two. *)
Definition process_artist_racing (other : M unit) (artist_name : string)
    (venue : option string) : M dict :=
  artist_info <- get_artist_from_db artist_name ;;
  match artist_info with
  | Some artist_info =>
    match venue with
    | Some v =>
      if truthy venue
      then id <- getitem artist_info "id" ;;
           update_venue_info id v ;; ret artist_info
      else ret artist_info
    | None => ret artist_info
    end
  | None =>
    artist_info <- gather_artist_info artist_name venue ;;
    other ;;
    save_artist_to_db artist_info ;;
    ret artist_info
  end.

End ArtistManager.

(** ** Two runtimes to run the code on *)

Lemma remove_dups_elem (l : list string) (x : string) :
  x ∈ remove_dups l <-> x ∈ l.
Proof. apply elem_of_remove_dups. Qed.

(** No catalog client; [set] iterates in the order of the last
    occurrences. *)
Definition offline : runtime :=
  {| spotify := None; str_lower := lower;
     str_lower_ascii := fun s _ => eq_refl; set_iter := remove_dups;
     set_iter_NoDup := NoDup_remove_dups; set_iter_elem := remove_dups_elem |}.

Definition idle (d : DB) (t : datetime) : world :=
  {| db := d; txn := d; fault := None; faults := []; clock := t; log := [] |}.

(** ** Running the primitives *)

(** A store that does not fail by itself: no fault is planned. *)
Definition reliable (w : world) : Prop := faults w = [].

Ltac py_unfold :=
  cbv beta iota zeta delta
    [bind ret raise try_except emit statement get_txn put_txn connect commit
     rollback close datetime_now print_database_error print_spotify_error
     execute_select_artist execute_select_genres execute_select_venues
     execute_insert_artist execute_insert_genre execute_insert_venue
     bind_text bind_boolean bind_integer bind_float str_join
     as_bool as_strlist
     db txn fault faults clock log hd tl].

Tactic Notation "py_unfold" "in" hyp(H) :=
  cbv beta iota zeta delta
    [bind ret raise try_except emit statement get_txn put_txn connect commit
     rollback close datetime_now print_database_error print_spotify_error
     execute_select_artist execute_select_genres execute_select_venues
     execute_insert_artist execute_insert_genre execute_insert_venue
     bind_text bind_boolean bind_integer bind_float str_join
     as_bool as_strlist
     db txn fault faults clock log hd tl] in H.

Ltac py_reliable w Hw :=
  let d := fresh "d" in
  destruct w as [d ? ? ? ? ?]; unfold reliable in Hw; simpl in Hw; subst.

(** The dictionary [get_artist_from_db] builds from a row of [artists]. *)
Definition hydrate (d : DB) (artist : artist_row) : dict :=
  <["id" := VInt (a_id artist)]>
  (<["name" := VStr (a_name artist)]>
  (<["is_local" := VInt (Z.b2z (a_is_local artist))]>
  (<["verification_source" := VStr (a_verification_source artist)]>
  (<["last_updated" := VDatetime (a_last_updated artist)]>
  (<["genres" := VStrList (select_genres (a_id artist) d)]>
  (<["venues" := VVenueList (select_venues (a_id artist) d)]> ∅)))))).

(** The statements of a lookup, most recent first: one [SELECT], and two
    more on a hit. *)
Definition lookup_events (name : string) (d : DB) : list event :=
  match select_artist name d with
  | Some a => [EvSelectVenues (a_id a); EvSelectGenres (a_id a)]
  | None => []
  end ++ [EvSelectArtist name].

Section Runs.

Context {rt : runtime}.

(** The item [get_spotify_info] builds its fragment from, if any: the first
    item of a search that did not raise, by a configured client. *)
Definition catalog (name : string) : option spotify_artist :=
  match spotify with
  | Some client =>
    match client name with
    | SearchItems (artist :: _) => Some artist
    | _ => None
    end
  | None => None
  end.

(** The candidate [gather_artist_info] returns. *)
Definition gathered (name : string) : dict :=
  match catalog name with
  | Some artist =>
    <["name" := VStr name]>
    (<["genres" := VStrList (sp_genres artist)]>
    (<["is_local" := VBool false]>
    (<["confidence" :=
         VFloat (if String.eqb (str_lower (sp_name artist))
                               (str_lower name)
                 then 0.8%float else 0.5%float)]>
    (<["sources" := VStrList ["spotify"]]>
    (<["popularity" := VInt (sp_popularity artist)]>
    (<["spotify_id" := VStr (sp_id artist)]> ∅))))))
  | None =>
    <["name" := VStr name]>
    (<["genres" := VStrList []]>
    (<["is_local" := VBool false]>
    (<["confidence" := VFloat 0.0%float]>
    (<["sources" := VStrList []]> ∅))))
  end.

(** What [gather_artist_info] does to the outside on the way, most recent
    first. *)
Definition gather_events (name : string) : list event :=
  [EvAdapter VenueHistory name; EvAdapter Social name] ++
  match spotify with
  | Some client =>
    match client name with
    | SearchRaises => [EvPrintSpotifyError SpotifyException]
    | SearchItems _ => []
    end ++ [EvSpotifySearch name]
  | None => []
  end.

Definition logged (evs : list event) (w : world) : world :=
  {| db := db w; txn := txn w; fault := fault w; faults := faults w;
     clock := clock w; log := evs ++ log w |}.

Lemma gather_artist_info_run (name : string) (venue : option string)
    (w : world) :
  truthy venue = false ->
  gather_artist_info name venue w =
    (Ok (gathered name), logged (gather_events name) w).
Proof.
  intros Hv. destruct w as [d t f fs c l].
  unfold gather_artist_info, get_spotify_info, check_social_media,
    check_venue_history, spotify_search, gathered, gather_events, catalog,
    logged.
  rewrite Hv. destruct rt as [[client|] lw Hlw si H1 H2]; cbn [spotify].
  - destruct (client name) as [|[|a items]]; destruct venue; reflexivity.
  - destruct venue; reflexivity.
Qed.

(** With a venue, [info['id']] is looked up in a dictionary that has no
    such key. *)
Lemma gather_artist_info_raises (name : string) (venue : option string)
    (w : world) :
  truthy venue = true ->
  gather_artist_info name venue w =
    (Raise (KeyError "id"), logged (gather_events name) w).
Proof.
  intros Hv. destruct w as [d t f fs c l].
  unfold gather_artist_info, get_spotify_info, check_social_media,
    check_venue_history, spotify_search, gather_events, logged.
  rewrite Hv. destruct venue as [v|]; [|discriminate].
  destruct rt as [[client|] lw Hlw si H1 H2]; cbn [spotify].
  - destruct (client name) as [|[|a items]]; reflexivity.
  - reflexivity.
Qed.

Lemma get_artist_from_db_run (name : string) (w : world) :
  reliable w ->
  get_artist_from_db name w =
    (Ok (hydrate (db w) <$> select_artist name (db w)),
     {| db := db w; txn := db w; fault := None; faults := [];
        clock := clock w; log := lookup_events name (db w) ++ log w |}).
Proof.
  intros Hw. py_reliable w Hw.
  unfold get_artist_from_db, lookup_events. py_unfold.
  destruct (select_artist name d) as [a|]; reflexivity.
Qed.

Lemma update_venue_info_run (id : Z) (venue : string) (w : world) :
  reliable w ->
  update_venue_info (VInt id) venue w =
    (Ok tt,
     let d := insert_venue {| v_artist_id := id; v_venue := venue;
                              v_last_played := clock w |} (db w) in
     {| db := d; txn := d; fault := None; faults := [];
        clock := clock w;
        log := [EvCommit; EvInsertVenue id venue] ++ log w |}).
Proof.
  intros Hw. py_reliable w Hw.
  reflexivity.
Qed.

(** The rows a successful [save_artist_to_db] adds. *)
Definition genre_rows (id : Z) (confidence : float) (source : string)
    (gs : list string) : list genre_row :=
  map (fun g => {| g_artist_id := id; g_genre := g;
                   g_confidence := confidence; g_source := source |})
      (set_iter gs).

Definition saved (name : string) (is_local : bool) (ss gs : list string)
    (confidence : float) (now : datetime) (d : DB) : DB :=
  {| artists := artists d ++
       [{| a_id := next_rowid (artists d); a_name := name;
           a_is_local := is_local;
           a_verification_source := String.concat "," ss;
           a_last_updated := now |}];
     artist_genres := artist_genres d ++
       genre_rows (next_rowid (artists d)) confidence
                  (String.concat "," ss) gs;
     artist_venues := artist_venues d |}.

Definition save_events (name : string) (id : Z) (gs : list string)
    : list event :=
  [EvCommit] ++ rev (map (EvInsertGenre id) (set_iter gs)) ++
  [EvInsertArtist name].

Lemma select_artist_None (name : string) (d : DB) :
  select_artist name d = None <->
  existsb (fun r => String.eqb (a_name r) name) (artists d) = false.
Proof.
  unfold select_artist. induction (artists d) as [|r rows IH]; simpl.
  - tauto.
  - destruct (String.eqb (a_name r) name); simpl; [split; discriminate|].
    exact IH.
Qed.

Lemma insert_genres_run (info : dict) (id : Z) (c : float)
    (ss : list string) :
  info !! "confidence" = Some (VFloat c) ->
  info !! "sources" = Some (VStrList ss) ->
  forall (gs : list string) (d : DB) (ar : list artist_row)
         (gr : list genre_row) (vr : list venue_row)
         (fs : list (option nat)) (clk : datetime) (l : list event),
  for_each gs (save_genre info id)
    {| db := d;
       txn := {| artists := ar; artist_genres := gr; artist_venues := vr |};
       fault := None; faults := fs; clock := clk; log := l |} =
  (Ok tt,
   {| db := d;
      txn := {| artists := ar;
                artist_genres := gr ++
                  map (fun g => {| g_artist_id := id; g_genre := g;
                                   g_confidence := c;
                                   g_source := String.concat "," ss |}) gs;
                artist_venues := vr |};
      fault := None; faults := fs; clock := clk;
      log := rev (map (EvInsertGenre id) gs) ++ l |}).
Proof.
  intros Hc Hs gs. induction gs as [|g gs IH]; intros d ar gr vr fs clk l.
  - cbn [for_each map rev app]. rewrite app_nil_r. reflexivity.
  - cbn [for_each]. unfold bind at 1.
    unfold save_genre at 1, getitem. rewrite Hc, Hs. py_unfold.
    unfold insert_genre. cbn [g_artist_id g_genre artists artist_genres
                              artist_venues].
    rewrite IH. cbn [map rev]. rewrite <- !app_assoc. reflexivity.
Qed.

Lemma save_artist_to_db_run (info : dict) (w : world) (name : string)
    (b : bool) (ss gs : list string) (c : float) :
  reliable w ->
  info !! "name" = Some (VStr name) ->
  info !! "is_local" = Some (VBool b) ->
  info !! "sources" = Some (VStrList ss) ->
  info !! "genres" = Some (VStrList gs) ->
  info !! "confidence" = Some (VFloat c) ->
  select_artist name (db w) = None ->
  save_artist_to_db info w =
    (Ok tt,
     let d := saved name b ss gs c (clock w) (db w) in
     {| db := d; txn := d; fault := None; faults := []; clock := clock w;
        log := save_events name (next_rowid (artists (db w))) gs ++ log w |}).
Proof.
  intros Hw Hn Hl Hs Hg Hc Hfresh. py_reliable w Hw.
  apply select_artist_None in Hfresh. cbn [db] in Hfresh.
  unfold save_artist_to_db, getitem, py_set.
  rewrite Hn, Hl, Hs, Hg. py_unfold.
  unfold insert_artist. rewrite Hfresh. py_unfold.
  rewrite (insert_genres_run info _ c ss Hc Hs). py_unfold.
  unfold saved, save_events, genre_rows. cbn [app].
  rewrite <- !app_assoc. reflexivity.
Qed.

(** A duplicate name: the [INSERT] raises, the handler prints and rolls
    back. *)
Lemma save_artist_to_db_duplicate (info : dict) (w : world) (name : string)
    (b : bool) (ss : list string) (a : artist_row) :
  reliable w ->
  info !! "name" = Some (VStr name) ->
  info !! "is_local" = Some (VBool b) ->
  info !! "sources" = Some (VStrList ss) ->
  select_artist name (db w) = Some a ->
  save_artist_to_db info w =
    (Ok tt,
     {| db := db w; txn := db w; fault := None; faults := [];
        clock := clock w;
        log := [EvRollback; EvPrintDatabaseError unique_name_failed;
                EvInsertArtist name] ++ log w |}).
Proof.
  intros Hw Hn Hl Hs Hdup. py_reliable w Hw. cbn [db] in Hdup.
  assert (Hex : existsb (fun r => String.eqb (a_name r) name) (artists d)
                = true).
  { destruct (existsb _ _) eqn:E; [reflexivity|].
    apply select_artist_None in E. congruence. }
  unfold save_artist_to_db, getitem.
  rewrite Hn, Hl, Hs. py_unfold.
  unfold insert_artist. rewrite Hex. reflexivity.
Qed.

(** What the candidate holds under the keys [save_artist_to_db] reads. *)
Definition gathered_genres (name : string) : list string :=
  match catalog name with Some artist => sp_genres artist | None => [] end.

Definition gathered_sources (name : string) : list string :=
  match catalog name with Some _ => ["spotify"] | None => [] end.

Definition gathered_confidence (name : string) : float :=
  match catalog name with
  | Some artist =>
    if String.eqb (str_lower (sp_name artist)) (str_lower name)
    then 0.8%float else 0.5%float
  | None => 0.0%float
  end.

Lemma gathered_lookup (name : string) :
  gathered name !! "name" = Some (VStr name) /\
  gathered name !! "is_local" = Some (VBool false) /\
  gathered name !! "sources" = Some (VStrList (gathered_sources name)) /\
  gathered name !! "genres" = Some (VStrList (gathered_genres name)) /\
  gathered name !! "confidence" = Some (VFloat (gathered_confidence name)) /\
  gathered name !! "id" = None /\
  gathered name !! "venues" = None.
Proof.
  unfold gathered, gathered_sources, gathered_genres, gathered_confidence.
  destruct (catalog name) as [a|]; repeat split; reflexivity.
Qed.

Lemma hydrate_id (d : DB) (a : artist_row) :
  hydrate d a !! "id" = Some (VInt (a_id a)).
Proof. reflexivity. Qed.

(** *** The three ways through [process_artist] *)

Definition visit (venue : option string) (id : Z) (now : datetime)
    : list venue_row :=
  match venue with
  | Some v =>
    if truthy venue
    then [{| v_artist_id := id; v_venue := v; v_last_played := now |}]
    else []
  | None => []
  end.

Definition visit_events (venue : option string) (id : Z) : list event :=
  match venue with
  | Some v => if truthy venue then [EvCommit; EvInsertVenue id v] else []
  | None => []
  end.

Lemma process_artist_hit (name : string) (venue : option string)
    (w : world) (a : artist_row) :
  reliable w ->
  select_artist name (db w) = Some a ->
  process_artist name venue w =
    (Ok (hydrate (db w) a),
     let d := {| artists := artists (db w);
                 artist_genres := artist_genres (db w);
                 artist_venues :=
                   artist_venues (db w) ++ visit venue (a_id a) (clock w) |} in
     {| db := d; txn := d; fault := None; faults := []; clock := clock w;
        log := visit_events venue (a_id a) ++
               [EvSelectVenues (a_id a); EvSelectGenres (a_id a);
                EvSelectArtist name] ++ log w |}).
Proof.
  intros Hw Ha. unfold process_artist, bind at 1.
  rewrite (get_artist_from_db_run name w Hw).
  unfold lookup_events. rewrite Ha. cbn [fmap option_fmap option_map].
  py_reliable w Hw. cbn [db clock log] in *.
  unfold visit, visit_events.
  destruct venue as [v|]; [destruct (truthy (Some v))|].
  - unfold bind at 1, getitem. rewrite hydrate_id. unfold ret at 1.
    unfold bind at 1. rewrite update_venue_info_run by reflexivity.
    destruct d; reflexivity.
  - destruct d; rewrite app_nil_r; reflexivity.
  - destruct d; rewrite app_nil_r; reflexivity.
Qed.

Lemma process_artist_miss (name : string) (venue : option string)
    (w : world) :
  reliable w ->
  select_artist name (db w) = None ->
  truthy venue = false ->
  process_artist name venue w =
    (Ok (gathered name),
     let d := saved name false (gathered_sources name)
                (gathered_genres name) (gathered_confidence name) (clock w)
                (db w) in
     {| db := d; txn := d; fault := None; faults := []; clock := clock w;
        log := save_events name (next_rowid (artists (db w)))
                 (gathered_genres name) ++
               gather_events name ++ [EvSelectArtist name] ++ log w |}).
Proof.
  intros Hw Ha Hv. unfold process_artist, bind at 1.
  rewrite (get_artist_from_db_run name w Hw).
  unfold lookup_events. rewrite Ha. cbn [fmap option_fmap option_map].
  unfold bind at 1. rewrite gather_artist_info_run by exact Hv.
  destruct (gathered_lookup name) as (Hn & Hl & Hs & Hg & Hc & _).
  unfold bind at 1.
  erewrite save_artist_to_db_run; eauto; reflexivity.
Qed.

Lemma process_artist_miss_venue (name : string) (venue : option string)
    (w : world) :
  reliable w ->
  select_artist name (db w) = None ->
  truthy venue = true ->
  process_artist name venue w =
    (Raise (KeyError "id"),
     {| db := db w; txn := db w; fault := None; faults := [];
        clock := clock w;
        log := gather_events name ++ [EvSelectArtist name] ++ log w |}).
Proof.
  intros Hw Ha Hv. unfold process_artist, bind at 1.
  rewrite (get_artist_from_db_run name w Hw).
  unfold lookup_events. rewrite Ha. cbn [fmap option_fmap option_map].
  unfold bind at 1. rewrite gather_artist_info_raises by exact Hv.
  reflexivity.
Qed.

Lemma process_artist_racing_alone (name : string) (venue : option string)
    (w : world) :
  process_artist_racing (ret tt) name venue w = process_artist name venue w.
Proof.
  unfold process_artist_racing, process_artist, bind.
  destruct (get_artist_from_db name w) as [[[r|]|e] w1]; reflexivity.
Qed.

End Runs.

(** ** The store after an insert *)

(** Referential integrity of [artist_genres], which SQLite is not asked to
    enforce: every genre row belongs to an artist row. *)
Definition fk_genres (d : DB) : Prop :=
  forall r, r ∈ artist_genres d ->
    exists a, a ∈ artists d /\ a_id a = g_artist_id r.

Lemma fold_max_ge (i : Z) (ids : list Z) (x : Z) :
  x ∈ i :: ids -> (x <= fold_right Z.max i ids)%Z.
Proof.
  induction ids as [|j ids IH]; cbn [fold_right]; intros Hx.
  - apply list_elem_of_singleton in Hx. lia.
  - apply elem_of_cons in Hx as [->|Hx].
    + etransitivity; [apply IH; left|]. lia.
    + apply elem_of_cons in Hx as [->|Hx]; [lia|].
      etransitivity; [apply IH; right; exact Hx|]. lia.
Qed.

Lemma next_rowid_gt (rows : list artist_row) (a : artist_row) :
  a ∈ rows -> (a_id a < next_rowid rows)%Z.
Proof.
  intros Ha. unfold next_rowid.
  assert (Hid : a_id a ∈ map a_id rows).
  { apply list_elem_of_In, in_map, list_elem_of_In, Ha. }
  destruct (map a_id rows) as [|i ids]; [inversion Hid|].
  pose proof (fold_max_ge i ids _ Hid). lia.
Qed.

Lemma select_artist_Some (name : string) (d : DB) (a : artist_row) :
  select_artist name d = Some a -> a ∈ artists d /\ a_name a = name.
Proof.
  unfold select_artist. intros H. apply find_some in H as [Hin Heq].
  split; [apply list_elem_of_In, Hin | apply String.eqb_eq, Heq].
Qed.

Lemma find_snoc {A} (p : A -> bool) (l : list A) (x : A) :
  find p (l ++ [x]) =
  match find p l with
  | Some y => Some y
  | None => if p x then Some x else None
  end.
Proof.
  induction l as [|y l IH]; cbn [app find]; [reflexivity|].
  destruct (p y); [reflexivity | exact IH].
Qed.

Lemma filter_none {A} (P : A -> Prop) `{forall x, Decision (P x)}
    (l : list A) :
  (forall x, x ∈ l -> ~ P x) -> filter P l = [].
Proof.
  induction l as [|x l IH]; intros Hl; [reflexivity|].
  rewrite filter_cons_False by (apply Hl; left).
  apply IH. intros y Hy. apply Hl. right. exact Hy.
Qed.

Section Store.

Context {rt : runtime}.

Variables (name : string) (b : bool) (ss gs : list string) (c : float)
  (now : datetime) (d : DB).

Let d' := saved name b ss gs c now d.

Let row : artist_row :=
  {| a_id := next_rowid (artists d); a_name := name; a_is_local := b;
     a_verification_source := String.concat "," ss; a_last_updated := now |}.

Lemma select_artist_saved :
  select_artist name d = None -> select_artist name d' = Some row.
Proof.
  unfold select_artist, d', saved. cbn [artists]. intros H.
  rewrite find_snoc, H. cbn [a_name]. rewrite String.eqb_refl. reflexivity.
Qed.

Lemma select_artist_saved_other (n : string) :
  n <> name -> select_artist n d' = select_artist n d.
Proof.
  unfold select_artist, d', saved. cbn [artists]. intros H.
  rewrite find_snoc. cbn [a_name].
  destruct (find _ (artists d)); [reflexivity|].
  destruct (String.eqb_spec name n); congruence.
Qed.

Lemma select_genres_fresh :
  fk_genres d -> select_genres (next_rowid (artists d)) d = [].
Proof.
  intros Hfk. unfold select_genres.
  replace (filter _ (artist_genres d)) with (@nil genre_row); [reflexivity|].
  symmetry. apply filter_none. intros r Hr Heq.
  destruct (Hfk r Hr) as (a & Ha & Hid).
  pose proof (next_rowid_gt _ _ Ha). lia.
Qed.

Lemma select_genres_saved :
  fk_genres d -> select_genres (next_rowid (artists d)) d' = set_iter gs.
Proof.
  intros Hfk. pose proof (select_genres_fresh Hfk) as Hold.
  unfold select_genres, d', saved, genre_rows in *. cbn [artist_genres].
  rewrite filter_app, map_app, Hold. cbn [app].
  induction (set_iter gs) as [|g l IH]; [reflexivity|].
  cbn [map]. rewrite filter_cons_True by reflexivity.
  cbn [map g_genre]. f_equal. exact IH.
Qed.

Lemma select_venues_saved (id : Z) : select_venues id d' = select_venues id d.
Proof. reflexivity. Qed.

Lemma fk_genres_saved : fk_genres d -> fk_genres d'.
Proof.
  intros Hfk r. unfold d', saved, genre_rows. cbn [artist_genres artists].
  rewrite elem_of_app. intros [Hr|Hr].
  - destruct (Hfk r Hr) as (a & Ha & Hid).
    exists a. split; [apply elem_of_app; left; exact Ha | exact Hid].
  - apply list_elem_of_In, in_map_iff in Hr as (g & <- & _).
    exists row. split; [apply elem_of_app; right; left | reflexivity].
Qed.

End Store.

Lemma fk_genres_empty : fk_genres empty_db.
Proof. intros r Hr. inversion Hr. Qed.

(** ** A catalog to run the code on *)

Definition demo_search (q : string) : search_result :=
  if String.eqb q "Radio Room Allstars" then
    SearchItems [{| sp_name := "Radio Room Allstars";
                    sp_genres := ["rock"; "blues"; "rock"];
                    sp_popularity := 40; sp_id := "4Z8W4fKeB5YxbusRsdQVPb" |}]
  else if String.eqb q "the band" then
    SearchItems [{| sp_name := "The Band"; sp_genres := ["roots rock"];
                    sp_popularity := 63; sp_id := "4vpDg7Y7fU982Ds30zawDA" |}]
  else if String.eqb q "Band" then
    SearchItems [{| sp_name := "The Band"; sp_genres := ["roots rock"];
                    sp_popularity := 63; sp_id := "4vpDg7Y7fU982Ds30zawDA" |}]
  else if String.eqb q "Timeout" then SearchRaises
  else SearchItems [].

Definition online : runtime :=
  {| spotify := Some demo_search; str_lower := lower;
     str_lower_ascii := fun s _ => eq_refl; set_iter := remove_dups;
     set_iter_NoDup := NoDup_remove_dups; set_iter_elem := remove_dups_elem |}.

(** A store with one artist, two genre rows and one visit. *)
Definition demo_db : DB :=
  {| artists := [{| a_id := 1; a_name := "The Band"; a_is_local := true;
                    a_verification_source := "spotify";
                    a_last_updated := 100 |}];
     artist_genres := [{| g_artist_id := 1; g_genre := "roots rock";
                          g_confidence := 0.8; g_source := "spotify" |};
                       {| g_artist_id := 1; g_genre := "folk";
                          g_confidence := 0.8; g_source := "spotify" |}];
     artist_venues := [{| v_artist_id := 1; v_venue := "Radio Room";
                          v_last_played := 100 |}] |}.

Lemma fk_genres_demo : fk_genres demo_db.
Proof.
  intros r Hr. exists {| a_id := 1; a_name := "The Band"; a_is_local := true;
                         a_verification_source := "spotify";
                         a_last_updated := 100 |}.
  split; [left|].
  cbn in Hr. repeat (apply elem_of_cons in Hr as [->|Hr]; [reflexivity|]).
  inversion Hr.
Qed.

(** ** Properties of [process_artist] *)

Section Resolve.

Context {rt : runtime}.

Lemma process_artist_hit_no_venue (name : string) (venue : option string)
    (w : world) (a : artist_row) :
  reliable w ->
  select_artist name (db w) = Some a ->
  truthy venue = false ->
  process_artist name venue w =
    (Ok (hydrate (db w) a),
     {| db := db w; txn := db w; fault := None; faults := [];
        clock := clock w;
        log := [EvSelectVenues (a_id a); EvSelectGenres (a_id a);
                EvSelectArtist name] ++ log w |}).
Proof.
  intros Hw Ha Hv. rewrite (process_artist_hit name venue w a Hw Ha).
  unfold visit, visit_events. rewrite Hv.
  destruct w as [[ar gr vr] ? ? ? ? ?].
  destruct venue; cbn; rewrite app_nil_r; reflexivity.
Qed.

(** C2, as the code has it: two calls without a venue. The second call is
    always a pure cache hit: three [SELECT]s, no adapter call, no insert,
    the store unchanged. For a name that was in the store both calls return
    the same record. For a new name the first call returns the merged
    candidate, which has no id, and the second the stored record, with the
    id the insert assigned and the genres as the set iterates them. *)
Theorem process_artist_twice (name : string) (w : world) :
  reliable w ->
  fk_genres (db w) ->
  exists r1 w1 r2 w2 a,
    process_artist name None w = (Ok r1, w1) /\
    process_artist name None w1 = (Ok r2, w2) /\
    select_artist name (db w1) = Some a /\
    r2 = hydrate (db w1) a /\
    db w2 = db w1 /\
    log w2 = [EvSelectVenues (a_id a); EvSelectGenres (a_id a);
              EvSelectArtist name] ++ log w1 /\
    (is_Some (select_artist name (db w)) -> r1 = r2) /\
    (select_artist name (db w) = None ->
       r1 = gathered name /\
       r1 !! "id" = None /\
       r2 !! "id" = Some (VInt (next_rowid (artists (db w)))) /\
       r2 !! "genres" = Some (VStrList (set_iter (gathered_genres name)))).
Proof.
  intros Hw Hfk. destruct (select_artist name (db w)) as [a|] eqn:Ha.
  - eexists _, _, _, _, a.
    split; [apply process_artist_hit_no_venue; eauto|].
    split; [apply process_artist_hit_no_venue; [reflexivity|exact Ha|]|];
      [reflexivity|].
    cbn [db log]. repeat split; try reflexivity; try exact Ha;
      discriminate.
  - eexists _, _, _, _, _.
    split; [apply process_artist_miss; eauto|].
    split; [apply process_artist_hit_no_venue; [reflexivity| |reflexivity]|].
    { cbn [db]. apply select_artist_saved, Ha. }
    cbn [db log]. split; [apply select_artist_saved, Ha|].
    repeat split; try reflexivity.
    + intros [? ?]; discriminate.
    + apply gathered_lookup.
    + unfold hydrate. cbn [a_id].
      rewrite select_genres_saved by exact Hfk. reflexivity.
Qed.

Lemma merge_fragment_run (info : dict) (frag : fragment) (w : world)
    (b : bool) (gs ss : list string) :
  info !! "is_local" = Some (VBool b) ->
  info !! "genres" = Some (VStrList gs) ->
  info !! "sources" = Some (VStrList ss) ->
  merge_fragment info frag w =
    (Ok (<["sources" := VStrList (ss ++ f_sources frag)]>
        (<["genres" := VStrList (gs ++ f_genres frag)]>
        (<["is_local" := VBool (b || f_is_local frag)]> info))), w).
Proof.
  intros Hl Hg Hs. unfold merge_fragment, getitem.
  unfold bind at 1. rewrite Hl. py_unfold.
  destruct (f_genres frag) as [|g gs'] eqn:Hfg.
  - rewrite lookup_insert_ne by discriminate. rewrite Hs.
    rewrite app_nil_r.
    rewrite (insert_id (<["is_local" := _]> info) "genres" (VStrList gs))
      by (rewrite lookup_insert_ne by discriminate; exact Hg).
    reflexivity.
  - rewrite lookup_insert_ne by discriminate. rewrite Hg.
    rewrite lookup_insert_ne by discriminate.
    rewrite lookup_insert_ne by discriminate. rewrite Hs. reflexivity.
Qed.

(** C4: the merge keeps the genres as a list, as the adapters reported
    them: the catalog's list is taken over as it is and a fragment's genres
    are appended to it, duplicates included. [save_artist_to_db] iterates
    over the set of that list, so the genre rows of the new artist hold each
    tag of the candidate once. *)
Theorem genres_deduplicated_on_save (info : dict) (frag : fragment)
    (w : world) (name : string) (b : bool) (ss gs : list string)
    (c : float) :
  reliable w ->
  fk_genres (db w) ->
  info !! "name" = Some (VStr name) ->
  info !! "is_local" = Some (VBool b) ->
  info !! "sources" = Some (VStrList ss) ->
  info !! "genres" = Some (VStrList gs) ->
  info !! "confidence" = Some (VFloat c) ->
  select_artist name (db w) = None ->
  (exists cand w1,
     gather_artist_info name None w = (Ok cand, w1) /\
     cand !! "genres" =
       Some (VStrList match catalog name with
                      | Some artist => sp_genres artist
                      | None => []
                      end)) /\
  (exists info',
     merge_fragment info frag w = (Ok info', w) /\
     info' !! "genres" = Some (VStrList (gs ++ f_genres frag))) /\
  (exists w' a,
     save_artist_to_db info w = (Ok tt, w') /\
     select_artist name (db w') = Some a /\
     a_id a = next_rowid (artists (db w)) /\
     NoDup (select_genres (a_id a) (db w')) /\
     forall g, g ∈ select_genres (a_id a) (db w') <-> g ∈ gs).
Proof.
  intros Hw Hfk Hn Hl Hs Hg Hc Hfresh. split; [|split].
  - eexists _, _. split; [apply gather_artist_info_run; reflexivity|].
    apply gathered_lookup.
  - eexists. split; [eapply merge_fragment_run; eassumption|].
    rewrite lookup_insert_ne by discriminate. apply lookup_insert_eq.
  - eexists _, _. split; [eapply save_artist_to_db_run; eassumption|].
    cbn [db]. split; [apply select_artist_saved, Hfresh|].
    cbn [a_id]. split; [reflexivity|].
    rewrite select_genres_saved by exact Hfk.
    split; [apply set_iter_NoDup | apply set_iter_elem].
Qed.

(** C10: the genre rows of one insert are one row for each tag of the set,
    each under the id of the new artist, with the confidence of the record
    and with the comma-joined sources of the record; a row has no other
    column. *)
Theorem genre_rows_share_confidence_and_source (info : dict) (w : world)
    (name : string) (b : bool) (ss gs : list string) (c : float) :
  reliable w ->
  info !! "name" = Some (VStr name) ->
  info !! "is_local" = Some (VBool b) ->
  info !! "sources" = Some (VStrList ss) ->
  info !! "genres" = Some (VStrList gs) ->
  info !! "confidence" = Some (VFloat c) ->
  select_artist name (db w) = None ->
  exists w' rows,
    save_artist_to_db info w = (Ok tt, w') /\
    artist_genres (db w') = artist_genres (db w) ++ rows /\
    map g_genre rows = set_iter gs /\
    Forall (fun r => g_artist_id r = next_rowid (artists (db w)) /\
                     g_confidence r = c /\
                     g_source r = String.concat "," ss) rows.
Proof.
  intros Hw Hn Hl Hs Hg Hc Hfresh. eexists _, _.
  split; [eapply save_artist_to_db_run; eassumption|].
  cbn [db saved artist_genres]. split; [reflexivity|].
  unfold genre_rows. split.
  - rewrite map_map. cbn [g_genre]. apply map_id.
  - apply Forall_forall. intros r Hr.
    apply list_elem_of_In, in_map_iff in Hr as (g & <- & _).
    repeat split.
Qed.


(** C9: the record [process_artist] returns has one of two shapes. On a hit
    its keys are those of the stored record, with an id and the visits and
    without [confidence] and [sources]. On a miss, which returns without a
    venue only, its keys are those of the candidate, with [popularity] and
    [spotify_id] when the catalog gave an item, and without an id and
    without visits. *)
Theorem record_shapes (name : string) (venue : option string) (w : world) :
  reliable w ->
  (forall a, select_artist name (db w) = Some a ->
     exists r w',
       process_artist name venue w = (Ok r, w') /\
       dom r = {[ "id"; "name"; "is_local"; "verification_source";
                  "last_updated"; "genres"; "venues" ]}) /\
  (select_artist name (db w) = None ->
   truthy venue = false ->
     exists r w',
       process_artist name venue w = (Ok r, w') /\
       dom r = {[ "name"; "genres"; "is_local"; "confidence"; "sources" ]} ∪
               match catalog name with
               | Some _ => {[ "popularity"; "spotify_id" ]}
               | None => ∅
               end).
Proof.
  intros Hw. split.
  - intros a Ha. eexists _, _.
    split; [apply (process_artist_hit name venue w a); assumption|].
    reflexivity.
  - intros Ha Hv. eexists _, _.
    split; [apply process_artist_miss; assumption|].
    unfold gathered. destruct (catalog name); reflexivity.
Qed.

(** C5, as the code has it: when another writer has committed the name
    between the lookup and the insert, the [INSERT] raises on the [UNIQUE]
    constraint, [save_artist_to_db] prints the error and rolls back, and
    [process_artist] returns its own candidate, which has no id. The error
    does not reach the caller, the store stays as the other writer left it,
    and the name is not looked up again. *)
Theorem duplicate_insert_returns_candidate (other : M unit) (name : string)
    (venue : option string) (w w0 w1 w2 : world) (info : dict)
    (a : artist_row) :
  get_artist_from_db name w = (Ok None, w0) ->
  gather_artist_info name venue w0 = (Ok info, w1) ->
  other w1 = (Ok tt, w2) ->
  reliable w2 ->
  select_artist name (db w2) = Some a ->
  exists w3,
    process_artist_racing other name venue w = (Ok info, w3) /\
    db w3 = db w2 /\
    log w3 = [EvRollback; EvPrintDatabaseError unique_name_failed;
              EvInsertArtist name] ++ log w2 /\
    info !! "id" = None.
Proof.
  intros Hfind Hgather Hother Hw2 Hdup.
  destruct (truthy venue) eqn:Hv.
  { rewrite gather_artist_info_raises in Hgather by exact Hv.
    discriminate. }
  rewrite gather_artist_info_run in Hgather by exact Hv.
  injection Hgather as <- <-.
  destruct (gathered_lookup name) as (Hn & Hl & Hs & _ & _ & Hid & _).
  eexists. split.
  - unfold process_artist_racing, bind at 1. rewrite Hfind.
    unfold bind at 1. rewrite gather_artist_info_run by exact Hv.
    unfold bind at 1. rewrite Hother.
    unfold bind at 1.
    erewrite save_artist_to_db_duplicate by eassumption. reflexivity.
  - cbn [db log]. repeat split. exact Hid.
Qed.

End Resolve.

(** ** A store that fails *)

Section Faults.

Context {rt : runtime}.

(** A lookup whose connection does not fail, whatever is planned for the
    connections after it. *)
Lemma get_artist_from_db_sound (name : string) (w : world) :
  hd None (faults w) = None ->
  get_artist_from_db name w =
    (Ok (hydrate (db w) <$> select_artist name (db w)),
     {| db := db w; txn := db w; fault := None; faults := tl (faults w);
        clock := clock w; log := lookup_events name (db w) ++ log w |}).
Proof.
  intros Hw. destruct w as [d t f fs c l]. cbn [faults] in Hw.
  destruct fs as [|[k|] fs]; try discriminate Hw;
    unfold get_artist_from_db, lookup_events; py_unfold;
    destruct (select_artist name d) as [a|]; reflexivity.
Qed.

(** An insert whose connection fails on its first statement. *)
Lemma save_artist_to_db_fault (info : dict) (w : world) (name : string)
    (b : bool) (ss : list string) :
  hd None (faults w) = Some O ->
  info !! "name" = Some (VStr name) ->
  info !! "is_local" = Some (VBool b) ->
  info !! "sources" = Some (VStrList ss) ->
  save_artist_to_db info w =
    (Ok tt,
     {| db := db w; txn := db w; fault := None; faults := tl (faults w);
        clock := clock w;
        log := [EvRollback; EvPrintDatabaseError OperationalError;
                EvInsertArtist name] ++ log w |}).
Proof.
  intros Hw Hn Hl Hs. destruct w as [d t f fs c l]. cbn [faults] in Hw.
  destruct fs as [|[[|k]|] fs]; try discriminate Hw.
  unfold save_artist_to_db, getitem. rewrite Hn, Hl, Hs. reflexivity.
Qed.

(** A lookup never raises, whatever the store does: a failing statement is
    printed and the lookup answers [None], as for a name that is absent. *)
Lemma get_artist_from_db_any (name : string) (w : world) :
  exists r w',
    get_artist_from_db name w = (Ok r, w') /\
    db w' = db w /\ clock w' = clock w /\
    (r = None \/
     exists a, select_artist name (db w) = Some a /\
               r = Some (hydrate (db w) a)).
Proof.
  destruct w as [d t f fs c l]. unfold get_artist_from_db.
  destruct fs as [|[[|[|[|k]]]|] fs]; py_unfold;
    destruct (select_artist name d) as [a|] eqn:Ha;
    eexists _, _; (split; [reflexivity|]);
    (split; [reflexivity|]); (split; [reflexivity|]);
    first [left; reflexivity | right; exists a; split; reflexivity].
Qed.

(** One turn of the loop over the genres. *)
Lemma save_genre_run (info : dict) (id : Z) (c : float) (ss : list string)
    (g : string) (w : world) :
  info !! "confidence" = Some (VFloat c) ->
  info !! "sources" = Some (VStrList ss) ->
  save_genre info id g w =
    let r := {| g_artist_id := id; g_genre := g; g_confidence := c;
                g_source := String.concat "," ss |} in
    match fault w with
    | Some O =>
      (Raise OperationalError,
       {| db := db w; txn := txn w; fault := None; faults := faults w;
          clock := clock w; log := EvInsertGenre id g :: log w |})
    | Some (S k) =>
      (Ok tt,
       {| db := db w; txn := insert_genre r (txn w); fault := Some k;
          faults := faults w; clock := clock w;
          log := EvInsertGenre id g :: log w |})
    | None =>
      (Ok tt,
       {| db := db w; txn := insert_genre r (txn w); fault := None;
          faults := faults w; clock := clock w;
          log := EvInsertGenre id g :: log w |})
    end.
Proof.
  intros Hc Hs. unfold save_genre, getitem. rewrite Hc, Hs.
  destruct w as [d t [[|k]|] fs clk l]; reflexivity.
Qed.

(** The loop over the genres either inserts every row into the open
    transaction or raises; what is committed does not change. *)
Lemma insert_genres_any (info : dict) (id : Z) (c : float)
    (ss : list string) :
  info !! "confidence" = Some (VFloat c) ->
  info !! "sources" = Some (VStrList ss) ->
  forall (gs : list string) (w : world),
  exists w',
    db w' = db w /\ clock w' = clock w /\
    ((for_each gs (save_genre info id) w = (Ok tt, w') /\
      txn w' =
        {| artists := artists (txn w);
           artist_genres := artist_genres (txn w) ++
             map (fun g => {| g_artist_id := id; g_genre := g;
                              g_confidence := c;
                              g_source := String.concat "," ss |}) gs;
           artist_venues := artist_venues (txn w) |}) \/
     exists e, for_each gs (save_genre info id) w = (Raise e, w')).
Proof.
  intros Hc Hs gs. induction gs as [|g gs IH]; intros w.
  - exists w. split; [reflexivity|]. split; [reflexivity|]. left.
    split; [reflexivity|].
    destruct w as [d [ar gr vr] f fs clk l]. cbn. rewrite app_nil_r.
    reflexivity.
  - cbn [for_each]. unfold bind.
    rewrite (save_genre_run info id c ss g w Hc Hs). cbv zeta.
    destruct (fault w) as [[|k]|].
    + eexists. split; [|split; [|right; eexists; reflexivity]]; reflexivity.
    + match goal with
      | |- context [for_each gs _ ?W] =>
        destruct (IH W) as (w' & Hdb & Hclk & [[Hrun Htxn]|[e Hrun]])
      end; exists w'; (split; [exact Hdb|]); (split; [exact Hclk|]).
      * left. split; [exact Hrun|]. rewrite Htxn. cbn.
        rewrite <- app_assoc. reflexivity.
      * right. exists e. exact Hrun.
    + match goal with
      | |- context [for_each gs _ ?W] =>
        destruct (IH W) as (w' & Hdb & Hclk & [[Hrun Htxn]|[e Hrun]])
      end; exists w'; (split; [exact Hdb|]); (split; [exact Hclk|]).
      * left. split; [exact Hrun|]. rewrite Htxn. cbn.
        rewrite <- app_assoc. reflexivity.
      * right. exists e. exact Hrun.
Qed.

(** [save_artist_to_db] is atomic and silent: it returns normally, and the
    store is either as it was or holds the artist row and all its genre
    rows. *)
Lemma save_artist_to_db_atomic (info : dict) (name : string) (b : bool)
    (ss gs : list string) (c : float) (w : world) :
  info !! "name" = Some (VStr name) ->
  info !! "is_local" = Some (VBool b) ->
  info !! "sources" = Some (VStrList ss) ->
  info !! "genres" = Some (VStrList gs) ->
  info !! "confidence" = Some (VFloat c) ->
  exists w',
    save_artist_to_db info w = (Ok tt, w') /\
    (db w' = db w \/
     (select_artist name (db w) = None /\
      db w' = saved name b ss gs c (clock w) (db w))).
Proof.
  intros Hn Hl Hs Hg Hc. destruct w as [d t f fs clk l].
  unfold save_artist_to_db, getitem, py_set.
  rewrite Hn, Hl, Hs, Hg.
  destruct fs as [|[[|k]|] fs]; py_unfold;
    try (eexists; split; [reflexivity|left; reflexivity]);
    unfold insert_artist;
    (destruct (existsb _ (artists d)) eqn:Hex;
      [eexists; split; [reflexivity|left; reflexivity]|]);
    apply select_artist_None in Hex; py_unfold;
    match goal with
    | |- context [for_each _ _ ?W] =>
      destruct (insert_genres_any info (next_rowid (artists d)) c ss Hc Hs
                  (set_iter gs) W)
        as (w' & Hdb & Hclk & [[Hrun Htxn]|[e Hrun]])
    end; rewrite Hrun;
    destruct w' as [d' t' f' fs' clk' l']; cbn [db txn clock] in *; subst;
    try (eexists; split; [reflexivity|left; reflexivity]);
    destruct f' as [[|k']|];
    eexists; (split; [reflexivity|]); cbn [db];
    first [left; reflexivity | right; split; [exact Hex|reflexivity]].
Qed.

(** Recording a visit never raises either, and touches the visits only. *)
Lemma update_venue_info_any (id : Z) (venue : string) (w : world) :
  exists w',
    update_venue_info (VInt id) venue w = (Ok tt, w') /\
    artists (db w') = artists (db w) /\
    artist_genres (db w') = artist_genres (db w) /\
    (artist_venues (db w') = artist_venues (db w) \/
     artist_venues (db w') =
       artist_venues (db w) ++
       [{| v_artist_id := id; v_venue := venue;
           v_last_played := clock w |}]).
Proof.
  destruct w as [d t f fs c l]. unfold update_venue_info.
  destruct fs as [|[[|[|k]]|] fs]; py_unfold;
    eexists; (split; [reflexivity|]); cbn;
    (split; [reflexivity|]); (split; [reflexivity|]);
    first [left; reflexivity | right; reflexivity].
Qed.

(** Without a venue [process_artist] returns, and what it commits is all
    or nothing. *)
Lemma process_artist_without_venue (name : string)
    (venue : option string) (w : world) :
  truthy venue = false ->
  exists r w',
    process_artist name venue w = (Ok r, w') /\
    (db w' = db w \/
     (select_artist name (db w) = None /\
      db w' = saved name false (gathered_sources name)
                (gathered_genres name) (gathered_confidence name)
                (clock w) (db w))) /\
    ((exists a, select_artist name (db w) = Some a /\
                r = hydrate (db w) a) \/
     r = gathered name).
Proof.
  intros Hv. unfold process_artist, bind at 1.
  destruct (get_artist_from_db_any name w)
    as (r & w0 & Hrun & Hdb & Hclk & [->|(a & Ha & ->)]); rewrite Hrun.
  - unfold bind at 1. rewrite gather_artist_info_run by exact Hv.
    destruct (gathered_lookup name) as (Hn & Hl & Hs & Hg & Hc & _).
    destruct (save_artist_to_db_atomic (gathered name) name false
                (gathered_sources name) (gathered_genres name)
                (gathered_confidence name)
                (logged (gather_events name) w0) Hn Hl Hs Hg Hc)
      as (w' & Hsave & Hstore).
    unfold bind at 1. rewrite Hsave. eexists _, _.
    split; [reflexivity|].
    cbn [logged db clock] in Hstore. rewrite Hdb, Hclk in Hstore.
    split; [exact Hstore|]. right. reflexivity.
  - eexists _, _. split.
    + destruct venue as [v|]; [rewrite Hv|]; reflexivity.
    + split; [left; exact Hdb|]. left. exists a. split; [exact Ha|].
      reflexivity.
Qed.

(** C1, on the code: for a name that is not in the store and a venue,
    [process_artist] looks the name up, gathers the candidate and then
    raises [KeyError: 'id'] on [info['id']], before anything is inserted:
    the store is left as it was, no artist row, no genre row, no visit,
    and on a store that does not fail the log shows the lookup and the
    adapters and no [INSERT]. *)
Theorem process_artist_new_artist_with_venue (name : string)
    (venue : option string) (w : world) :
  select_artist name (db w) = None ->
  truthy venue = true ->
  exists w',
    process_artist name venue w = (Raise (KeyError "id"), w') /\
    db w' = db w /\
    (reliable w ->
     log w' = gather_events name ++ [EvSelectArtist name] ++ log w).
Proof.
  intros Ha Hv.
  assert (Hrun : exists w',
    process_artist name venue w = (Raise (KeyError "id"), w') /\
    db w' = db w).
  { unfold process_artist, bind at 1.
    destruct (get_artist_from_db_any name w)
      as (r & w0 & Hrun & Hdb & _ & [->|(a & Hhit & _)]); [|congruence].
    rewrite Hrun. unfold bind at 1.
    rewrite gather_artist_info_raises by exact Hv.
    eexists. split; [reflexivity|]. exact Hdb. }
  destruct Hrun as (w' & Hrun & Hdb). exists w'.
  split; [exact Hrun|]. split; [exact Hdb|].
  intros Hw. rewrite (process_artist_miss_venue name venue w Hw Ha Hv) in Hrun.
  injection Hrun as <-. reflexivity.
Qed.

(** C3, as the code has it: the record [process_artist] returns for a
    name that is not in the store, which it does without a venue only, has
    the confidence of the catalog lookup, whatever the store does: 0.8
    when the first item the search returned has the queried name up to
    [str.lower], 0.5 when it has another name, and 0.0 when the lookup gave
    nothing (no client, a search that raised, or no item). The record of a
    name that is in the store has no confidence at all, whatever the
    catalog contributed when it was created: the confidence is kept in the
    genre rows only. *)
Theorem confidence_source (name : string) (venue : option string)
    (w : world) :
  (select_artist name (db w) = None ->
   truthy venue = false ->
   exists r w',
     process_artist name venue w = (Ok r, w') /\
     (forall client artist rest,
        spotify = Some client ->
        client name = SearchItems (artist :: rest) ->
        r !! "sources" = Some (VStrList ["spotify"]) /\
        (str_lower (sp_name artist) = str_lower name ->
           r !! "confidence" = Some (VFloat 0.8%float)) /\
        (str_lower (sp_name artist) <> str_lower name ->
           r !! "confidence" = Some (VFloat 0.5%float))) /\
     ((spotify = None \/
       exists client, spotify = Some client /\
         (client name = SearchRaises \/ client name = SearchItems [])) ->
      r !! "confidence" = Some (VFloat 0.0%float) /\
      r !! "sources" = Some (VStrList []))) /\
  (forall a,
     select_artist name (db w) = Some a ->
     reliable w ->
     exists r w',
       process_artist name venue w = (Ok r, w') /\
       r !! "verification_source" = Some (VStr (a_verification_source a)) /\
       r !! "confidence" = None).
Proof.
  split.
  - intros Ha Hv.
    destruct (process_artist_without_venue name venue w Hv)
      as (r & w' & Hrun & _ & [(a & Hhit & _)| ->]); [congruence|].
    eexists _, _. split; [exact Hrun|].
    destruct (gathered_lookup name) as (_ & _ & Hs & _ & Hc & _).
    rewrite Hs, Hc. unfold gathered_sources, gathered_confidence, catalog.
    split.
    + intros client artist rest -> ->. split; [reflexivity|].
      split; intros Hm.
      * apply String.eqb_eq in Hm. rewrite Hm. reflexivity.
      * apply String.eqb_neq in Hm. rewrite Hm. reflexivity.
    + intros [->|(client & -> & [-> | ->])]; split; reflexivity.
  - intros a Ha Hw. eexists _, _.
    split; [apply (process_artist_hit name venue w a Hw Ha)|].
    split; reflexivity.
Qed.

(** Whatever the store does, resolving a name that is in the store leaves
    the artist rows and the genre rows as they are. *)
Lemma process_artist_frame (name : string) (venue : option string)
    (w : world) (a : artist_row) :
  select_artist name (db w) = Some a ->
  artists (db (snd (process_artist name venue w))) = artists (db w) /\
  artist_genres (db (snd (process_artist name venue w)))
    = artist_genres (db w).
Proof.
  intros Ha.
  assert (H : exists r w',
    process_artist name venue w = (r, w') /\
    artists (db w') = artists (db w) /\
    artist_genres (db w') = artist_genres (db w)).
  { destruct (truthy venue) eqn:Hv.
    - unfold process_artist, bind at 1.
      destruct (get_artist_from_db_any name w)
        as (r & w0 & Hrun & Hdb & Hclk & [->|(a' & Ha' & ->)]);
        rewrite Hrun.
      + unfold bind at 1. rewrite gather_artist_info_raises by exact Hv.
        eexists _, _. split; [reflexivity|]. cbn. rewrite Hdb.
        split; reflexivity.
      + destruct venue as [v|]; [|discriminate]. rewrite Hv.
        unfold bind at 1, getitem. rewrite hydrate_id. unfold ret at 1.
        destruct (update_venue_info_any (a_id a') v w0)
          as (w' & Hupd & Har & Hgr & _).
        unfold bind at 1. rewrite Hupd.
        eexists _, _. split; [reflexivity|].
        rewrite Har, Hgr, Hdb. split; reflexivity.
    - destruct (process_artist_without_venue name venue w Hv)
        as (r & w' & Hrun & [Hdb|[Hnone _]] & _); [|congruence].
      exists (Ok r), w'. split; [exact Hrun|]. rewrite Hdb.
      split; reflexivity. }
  destruct H as (r & w' & -> & Har & Hgr). exact (conj Har Hgr).
Qed.

(** C7: for an artist that is in the store, [process_artist] leaves the
    artist rows and the genre rows as they are, whatever the store does.
    When the store does not fail it returns the stored record; the visits
    are unchanged without a venue, and with one a single row is appended
    for the artist's id. Nothing else happens: the log grows by the three
    [SELECT]s and, with a venue, the [INSERT] and its commit. *)
Theorem cache_hit_only_appends_visit (name : string)
    (venue : option string) (w : world) (a : artist_row) :
  select_artist name (db w) = Some a ->
  artists (db (snd (process_artist name venue w))) = artists (db w) /\
  artist_genres (db (snd (process_artist name venue w)))
    = artist_genres (db w) /\
  (reliable w ->
   exists w',
    process_artist name venue w = (Ok (hydrate (db w) a), w') /\
    (truthy venue = false ->
       artist_venues (db w') = artist_venues (db w) /\
       log w' = [EvSelectVenues (a_id a); EvSelectGenres (a_id a);
                 EvSelectArtist name] ++ log w) /\
    (forall v, venue = Some v -> truthy venue = true ->
       artist_venues (db w') =
         artist_venues (db w) ++
         [{| v_artist_id := a_id a; v_venue := v;
             v_last_played := clock w |}] /\
       log w' = [EvCommit; EvInsertVenue (a_id a) v;
                 EvSelectVenues (a_id a); EvSelectGenres (a_id a);
                 EvSelectArtist name] ++ log w)).
Proof.
  intros Ha.
  destruct (process_artist_frame name venue w a Ha) as [Har Hgr].
  split; [exact Har|]. split; [exact Hgr|].
  intros Hw. eexists. split; [apply process_artist_hit; assumption|].
  cbn [db artists artist_genres artist_venues log].
  unfold visit, visit_events. split.
  - intros Hv. rewrite Hv. destruct venue; rewrite app_nil_r; split;
      reflexivity.
  - intros v -> Hv. rewrite Hv. split; reflexivity.
Qed.

(** C6, as the code has it: without a venue [process_artist] returns a
    record whatever the store does. A lookup that fails counts as a miss,
    and an insert that fails, on a duplicate name or otherwise, is rolled
    back as a whole and printed, and the candidate is returned all the
    same: the store is as it was or holds the complete new artist. A
    catalog search that raises shows in the candidate only as confidence
    0.0, no genre and no source. *)
Theorem store_failures_are_not_surfaced (name : string)
    (venue : option string) (w : world) :
  truthy venue = false ->
  exists r w',
    process_artist name venue w = (Ok r, w') /\
    (db w' = db w \/
     (select_artist name (db w) = None /\
      db w' = saved name false (gathered_sources name)
                (gathered_genres name) (gathered_confidence name)
                (clock w) (db w))) /\
    ((exists a, select_artist name (db w) = Some a /\
                r = hydrate (db w) a) \/
     (r = gathered name /\
      forall client, spotify = Some client -> client name = SearchRaises ->
        r !! "confidence" = Some (VFloat 0.0%float) /\
        r !! "genres" = Some (VStrList []) /\
        r !! "sources" = Some (VStrList []))).
Proof.
  intros Hv.
  destruct (process_artist_without_venue name venue w Hv)
    as (r & w' & Hrun & Hstore & Hr).
  exists r, w'. split; [exact Hrun|]. split; [exact Hstore|].
  destruct Hr as [Hr| ->]; [left; exact Hr|]. right. split; [reflexivity|].
  intros client Hcl Hraise.
  destruct (gathered_lookup name) as (_ & _ & Hs & Hg & Hc & _).
  rewrite Hs, Hg, Hc.
  unfold gathered_sources, gathered_genres, gathered_confidence, catalog.
  rewrite Hcl, Hraise. repeat split.
Qed.

(** Referential integrity of the genre rows is an invariant of
    [process_artist], whatever the store does. *)
Lemma process_artist_fk_genres (name : string) (venue : option string)
    (w : world) :
  fk_genres (db w) -> fk_genres (db (snd (process_artist name venue w))).
Proof.
  intros Hfk. destruct (truthy venue) eqn:Hv.
  - unfold process_artist, bind at 1.
    destruct (get_artist_from_db_any name w)
      as (r & w0 & Hrun & Hdb & Hclk & [->|(a & Ha & ->)]); rewrite Hrun.
    + unfold bind at 1. rewrite gather_artist_info_raises by exact Hv.
      cbn. rewrite Hdb. exact Hfk.
    + destruct venue as [v|]; [|discriminate]. rewrite Hv.
      unfold bind at 1, getitem. rewrite hydrate_id. unfold ret at 1.
      destruct (update_venue_info_any (a_id a) v w0)
        as (w' & Hupd & Har & Hgr & _).
      unfold bind at 1. rewrite Hupd. cbn.
      intros g Hg. rewrite Hgr, Hdb in Hg. rewrite Har, Hdb.
      exact (Hfk g Hg).
  - destruct (process_artist_without_venue name venue w Hv)
      as (r & w' & Hrun & [Hdb|[_ Hdb]] & _); rewrite Hrun; cbn;
      rewrite Hdb.
    + exact Hfk.
    + apply fk_genres_saved, Hfk.
Qed.

End Faults.

(** ** The code on concrete inputs *)

(** A new store at time 7, and the same store when the connection of the
    insert fails on its first statement. *)
Definition fresh_world : world := idle empty_db 7.

Definition failing_world : world :=
  {| db := empty_db; txn := empty_db; fault := None;
     faults := [None; Some O]; clock := 7; log := [] |}.

Definition demo_world : world := idle demo_db 200.

(** A candidate in which two adapters reported the same tag. *)
Definition demo_candidate : dict :=
  <["name" := VStr "Radio Room Allstars"]>
  (<["genres" := VStrList ["rock"; "blues"; "rock"]]>
  (<["is_local" := VBool false]>
  (<["confidence" := VFloat 0.8%float]>
  (<["sources" := VStrList ["spotify"; "facebook"]]> ∅)))).

(** C2 fails for a new name: the first call returns the candidate, without
    an id and with the genres as the catalog listed them, and the second
    the stored record, with id 1 and each genre once. *)
Lemma new_name_resolved_twice_differs :
  exists r1 w1 r2 w2,
    @process_artist online "Radio Room Allstars" None fresh_world
      = (Ok r1, w1) /\
    @process_artist online "Radio Room Allstars" None w1 = (Ok r2, w2) /\
    r1 !! "id" = None /\
    r2 !! "id" = Some (VInt 1) /\
    r1 !! "genres" = Some (VStrList ["rock"; "blues"; "rock"]) /\
    r2 !! "genres" = Some (VStrList ["blues"; "rock"]) /\
    ~ (r1 !! "id" = r2 !! "id" /\ r1 !! "genres" = r2 !! "genres").
Proof.
  eexists _, _, _, _.
  split; [apply process_artist_miss; reflexivity|].
  split; [apply process_artist_hit_no_venue; reflexivity|].
  do 4 (split; [reflexivity|]).
  intros [H _]. discriminate H.
Qed.

(** C5 fails on the code: a resolution of a new name that loses the race
    against another one returns its candidate, which has no id, while the
    store holds the record of the other one under id 1. The name was looked
    up once by each, and not again after the failed insert. *)
Lemma losing_resolution_returns_no_id :
  exists r w' s w'',
    @process_artist_racing offline
      (@process_artist offline "X" None ;; ret tt) "X" None fresh_world
      = (Ok r, w') /\
    get_artist_from_db "X" w' = (Ok (Some s), w'') /\
    r !! "id" = None /\
    s !! "id" = Some (VInt 1) /\
    r <> s /\
    log w' = [EvRollback; EvPrintDatabaseError unique_name_failed;
              EvInsertArtist "X";
              EvCommit; EvInsertArtist "X"; EvAdapter VenueHistory "X";
              EvAdapter Social "X"; EvSelectArtist "X";
              EvAdapter VenueHistory "X"; EvAdapter Social "X";
              EvSelectArtist "X"].
Proof.
  eexists _, _, _, _. split.
  { unfold process_artist_racing, bind at 1.
    rewrite get_artist_from_db_run by reflexivity.
    cbn [fmap option_fmap option_map select_artist find artists db
         fresh_world idle empty_db].
    unfold bind at 1. rewrite gather_artist_info_run by reflexivity.
    unfold bind at 1, bind at 1.
    rewrite process_artist_miss by reflexivity.
    unfold ret at 1, bind at 1.
    erewrite save_artist_to_db_duplicate;
      [reflexivity | reflexivity | apply gathered_lookup
      | apply gathered_lookup | apply gathered_lookup | reflexivity]. }
  split; [rewrite get_artist_from_db_run by reflexivity; reflexivity|].
  split; [reflexivity|]. split; [reflexivity|].
  split; [|reflexivity].
  intros H.
  assert (Hid : @gathered offline "X" !! "id" = Some (VInt 1))
    by (rewrite H; reflexivity).
  discriminate Hid.
Qed.

(** C6 fails on the code: the insert of a new name fails on its first
    statement with an error of the store that is no duplicate name. The
    error is printed and rolled back, nothing is stored, and the call
    returns the candidate as if it had been saved. *)
Lemma store_failure_is_swallowed :
  exists r w',
    @process_artist offline "X" None failing_world = (Ok r, w') /\
    r !! "name" = Some (VStr "X") /\
    db w' = empty_db /\
    log w' = [EvRollback; EvPrintDatabaseError OperationalError;
              EvInsertArtist "X"; EvAdapter VenueHistory "X";
              EvAdapter Social "X"; EvSelectArtist "X"].
Proof.
  eexists _, _. split.
  { unfold process_artist, bind at 1.
    rewrite get_artist_from_db_sound by reflexivity.
    cbn [fmap option_fmap option_map select_artist find artists db
         failing_world empty_db].
    unfold bind at 1. rewrite gather_artist_info_run by reflexivity.
    unfold bind at 1.
    erewrite save_artist_to_db_fault;
      [reflexivity | reflexivity | apply gathered_lookup
      | apply gathered_lookup | apply gathered_lookup]. }
  split; [reflexivity|]. split; reflexivity.
Qed.

(** C3 fails for a record that comes from the store: the catalog gave the
    artist with the queried name up to case, the first call returns the
    candidate with confidence 0.8, and the second call returns the stored
    record, whose source is the catalog and which has no confidence. *)
Lemma stored_record_has_no_confidence :
  exists r1 w1 r2 w2,
    @process_artist online "the band" None fresh_world = (Ok r1, w1) /\
    r1 !! "sources" = Some (VStrList ["spotify"]) /\
    r1 !! "confidence" = Some (VFloat 0.8%float) /\
    @process_artist online "the band" None w1 = (Ok r2, w2) /\
    r2 !! "verification_source" = Some (VStr "spotify") /\
    r2 !! "confidence" = None.
Proof.
  eexists _, _, _, _.
  split; [apply process_artist_miss; reflexivity|].
  split; [reflexivity|]. split; [reflexivity|].
  split; [apply process_artist_hit_no_venue; reflexivity|].
  split; reflexivity.
Qed.

(** ** The theorems at concrete inputs *)

Section Witnesses.

#[local] Existing Instance online.

Let allstars : string := "Radio Room Allstars".

(** The scenario of the specification: a new artist the catalog knows,
    resolved with a venue. *)
Lemma process_artist_new_artist_with_venue_witness :
  select_artist allstars (db fresh_world) = None /\
  truthy (Some "Radio Room") = true /\
  exists w',
    process_artist allstars (Some "Radio Room") fresh_world
      = (Raise (KeyError "id"), w') /\
    db w' = db fresh_world /\
    (reliable fresh_world ->
     log w' = gather_events allstars ++ [EvSelectArtist allstars] ++
              log fresh_world).
Proof.
  split; [reflexivity|]. split; [reflexivity|].
  apply (process_artist_new_artist_with_venue allstars (Some "Radio Room")
           fresh_world); reflexivity.
Defined.

Lemma process_artist_twice_witness :
  reliable demo_world /\
  fk_genres (db demo_world) /\
  exists r1 w1 r2 w2 a,
    process_artist "The Band" None demo_world = (Ok r1, w1) /\
    process_artist "The Band" None w1 = (Ok r2, w2) /\
    select_artist "The Band" (db w1) = Some a /\
    r2 = hydrate (db w1) a /\
    db w2 = db w1 /\
    log w2 = [EvSelectVenues (a_id a); EvSelectGenres (a_id a);
              EvSelectArtist "The Band"] ++ log w1 /\
    (is_Some (select_artist "The Band" (db demo_world)) -> r1 = r2) /\
    (select_artist "The Band" (db demo_world) = None ->
       r1 = gathered "The Band" /\
       r1 !! "id" = None /\
       r2 !! "id" = Some (VInt (next_rowid (artists (db demo_world)))) /\
       r2 !! "genres" =
         Some (VStrList (set_iter (gathered_genres "The Band")))).
Proof.
  split; [reflexivity|]. split; [exact fk_genres_demo|].
  apply (process_artist_twice "The Band" demo_world);
    [reflexivity | exact fk_genres_demo].
Defined.

Lemma confidence_source_witness :
  all_chars is_ascii "The Band" = true /\
  str_lower "The Band" = str_lower "the band" /\
  exists r w',
    process_artist "the band" None fresh_world = (Ok r, w') /\
    r !! "sources" = Some (VStrList ["spotify"]) /\
    r !! "confidence" = Some (VFloat 0.8%float).
Proof.
  split; [reflexivity|]. split; [reflexivity|].
  destruct (confidence_source "the band" None fresh_world) as [Hmiss _].
  destruct (Hmiss eq_refl eq_refl) as (r & w' & Hrun & Hitem & _).
  exists r, w'. split; [exact Hrun|].
  destruct (Hitem demo_search
              {| sp_name := "The Band"; sp_genres := ["roots rock"];
                 sp_popularity := 63;
                 sp_id := "4vpDg7Y7fU982Ds30zawDA" |} [] eq_refl eq_refl)
    as (Hs & H8 & _).
  split; [exact Hs|]. apply H8. reflexivity.
Defined.

Let facebook : fragment :=
  {| f_genres := ["rock"]; f_sources := ["facebook"]; f_is_local := true |}.

Lemma genres_deduplicated_on_save_witness :
  reliable fresh_world /\
  fk_genres (db fresh_world) /\
  select_artist allstars (db fresh_world) = None /\
  (exists cand w1,
     gather_artist_info allstars None fresh_world = (Ok cand, w1) /\
     cand !! "genres" =
       Some (VStrList match catalog allstars with
                      | Some artist => sp_genres artist
                      | None => []
                      end)) /\
  (exists info',
     merge_fragment demo_candidate facebook fresh_world
       = (Ok info', fresh_world) /\
     info' !! "genres" =
       Some (VStrList (["rock"; "blues"; "rock"] ++ f_genres facebook))) /\
  (exists w' a,
     save_artist_to_db demo_candidate fresh_world = (Ok tt, w') /\
     select_artist allstars (db w') = Some a /\
     a_id a = next_rowid (artists (db fresh_world)) /\
     NoDup (select_genres (a_id a) (db w')) /\
     forall g, g ∈ select_genres (a_id a) (db w') <->
               g ∈ ["rock"; "blues"; "rock"]).
Proof.
  split; [reflexivity|]. split; [exact fk_genres_empty|].
  split; [reflexivity|].
  apply (genres_deduplicated_on_save demo_candidate facebook fresh_world
           allstars false ["spotify"; "facebook"] ["rock"; "blues"; "rock"]
           0.8%float);
    first [reflexivity | exact fk_genres_empty].
Defined.

Lemma genre_rows_share_confidence_and_source_witness :
  reliable fresh_world /\
  select_artist allstars (db fresh_world) = None /\
  exists w' rows,
    save_artist_to_db demo_candidate fresh_world = (Ok tt, w') /\
    artist_genres (db w') = artist_genres (db fresh_world) ++ rows /\
    map g_genre rows = set_iter ["rock"; "blues"; "rock"] /\
    Forall (fun r => g_artist_id r = next_rowid (artists (db fresh_world)) /\
                     g_confidence r = 0.8%float /\
                     g_source r = String.concat "," ["spotify"; "facebook"])
           rows.
Proof.
  split; [reflexivity|]. split; [reflexivity|].
  apply (genre_rows_share_confidence_and_source demo_candidate fresh_world
           allstars false ["spotify"; "facebook"] ["rock"; "blues"; "rock"]
           0.8%float); reflexivity.
Defined.

Let the_band : artist_row :=
  {| a_id := 1; a_name := "The Band"; a_is_local := true;
     a_verification_source := "spotify"; a_last_updated := 100 |}.

Lemma cache_hit_only_appends_visit_witness :
  select_artist "The Band" (db demo_world) = Some the_band /\
  artists (db (snd (process_artist "The Band" (Some "Gottrocks")
                      demo_world)))
    = artists (db demo_world) /\
  artist_genres (db (snd (process_artist "The Band" (Some "Gottrocks")
                            demo_world)))
    = artist_genres (db demo_world) /\
  (reliable demo_world ->
   exists w',
    process_artist "The Band" (Some "Gottrocks") demo_world
      = (Ok (hydrate (db demo_world) the_band), w') /\
    (truthy (Some "Gottrocks") = false ->
       artist_venues (db w') = artist_venues (db demo_world) /\
       log w' = [EvSelectVenues (a_id the_band);
                 EvSelectGenres (a_id the_band);
                 EvSelectArtist "The Band"] ++ log demo_world) /\
    (forall v, Some "Gottrocks" = Some v ->
       truthy (Some "Gottrocks") = true ->
       artist_venues (db w') =
         artist_venues (db demo_world) ++
         [{| v_artist_id := a_id the_band; v_venue := v;
             v_last_played := clock demo_world |}] /\
       log w' = [EvCommit; EvInsertVenue (a_id the_band) v;
                 EvSelectVenues (a_id the_band);
                 EvSelectGenres (a_id the_band);
                 EvSelectArtist "The Band"] ++ log demo_world)).
Proof.
  split; [reflexivity|].
  apply (cache_hit_only_appends_visit "The Band" (Some "Gottrocks")
           demo_world the_band); reflexivity.
Defined.


Lemma record_shapes_witness :
  reliable demo_world /\
  (forall a, select_artist "The Band" (db demo_world) = Some a ->
     exists r w',
       process_artist "The Band" None demo_world = (Ok r, w') /\
       dom r = {[ "id"; "name"; "is_local"; "verification_source";
                  "last_updated"; "genres"; "venues" ]}) /\
  (select_artist "The Band" (db demo_world) = None ->
   truthy None = false ->
     exists r w',
       process_artist "The Band" None demo_world = (Ok r, w') /\
       dom r = {[ "name"; "genres"; "is_local"; "confidence"; "sources" ]} ∪
               match catalog "The Band" with
               | Some _ => {[ "popularity"; "spotify_id" ]}
               | None => ∅
               end).
Proof.
  split; [reflexivity|].
  apply (record_shapes "The Band" None demo_world); reflexivity.
Defined.

Lemma store_failures_are_not_surfaced_witness :
  truthy None = false /\
  exists r w',
    process_artist "X" None failing_world = (Ok r, w') /\
    (db w' = db failing_world \/
     (select_artist "X" (db failing_world) = None /\
      db w' = saved "X" false (gathered_sources "X") (gathered_genres "X")
                (gathered_confidence "X") (clock failing_world)
                (db failing_world))) /\
    ((exists a, select_artist "X" (db failing_world) = Some a /\
                r = hydrate (db failing_world) a) \/
     (r = gathered "X" /\
      forall client, spotify = Some client -> client "X" = SearchRaises ->
        r !! "confidence" = Some (VFloat 0.0%float) /\
        r !! "genres" = Some (VStrList []) /\
        r !! "sources" = Some (VStrList []))).
Proof.
  split; [reflexivity|].
  apply (store_failures_are_not_surfaced "X" None failing_world);
    reflexivity.
Defined.

End Witnesses.

(** The world the other resolution of "X" leaves behind. *)
Definition raced_world : world :=
  let d := {| artists := [{| a_id := 1; a_name := "X"; a_is_local := false;
                             a_verification_source := "";
                             a_last_updated := 7 |}];
              artist_genres := []; artist_venues := [] |} in
  {| db := d; txn := d; fault := None; faults := []; clock := 7;
     log := [EvCommit; EvInsertArtist "X"; EvAdapter VenueHistory "X";
             EvAdapter Social "X"; EvSelectArtist "X";
             EvAdapter VenueHistory "X"; EvAdapter Social "X";
             EvSelectArtist "X"] |}.

Lemma duplicate_insert_returns_candidate_witness :
  reliable raced_world /\
  exists w3,
    @process_artist_racing offline
      (@process_artist offline "X" None ;; ret tt) "X" None fresh_world
      = (Ok (@gathered offline "X"), w3) /\
    db w3 = db raced_world /\
    log w3 = [EvRollback; EvPrintDatabaseError unique_name_failed;
              EvInsertArtist "X"] ++ log raced_world /\
    @gathered offline "X" !! "id" = None.
Proof.
  split; [reflexivity|].
  eapply (@duplicate_insert_returns_candidate offline
            (@process_artist offline "X" None ;; ret tt) "X" None
            fresh_world _ _ raced_world (@gathered offline "X")).
  - apply get_artist_from_db_run. reflexivity.
  - apply gather_artist_info_run. reflexivity.
  - unfold bind. rewrite process_artist_miss by reflexivity. reflexivity.
  - reflexivity.
  - reflexivity.
Defined.

(** ** More on the store: what [process_artist] can commit *)

(** No two artist rows share a name or an id: what the [UNIQUE] constraint
    and the primary key stand for. *)
Definition unique_artists (d : DB) : Prop :=
  NoDup (map a_name (artists d)) /\ NoDup (map a_id (artists d)).

(** The clock moves between two calls. *)
Definition at_time (t : datetime) (w : world) : world :=
  {| db := db w; txn := txn w; fault := fault w; faults := faults w;
     clock := t; log := log w |}.

Lemma select_artist_absent (name : string) (d : DB) :
  select_artist name d = None -> name ∉ map a_name (artists d).
Proof.
  unfold select_artist. intros Hnone Hin.
  apply list_elem_of_In, in_map_iff in Hin as (r & Hr & Hin).
  apply (find_none _ _ Hnone) in Hin. rewrite Hr, String.eqb_refl in Hin.
  discriminate.
Qed.

Lemma next_rowid_unused (rows : list artist_row) :
  next_rowid rows ∉ map a_id rows.
Proof.
  intros Hin. apply list_elem_of_In, in_map_iff in Hin as (r & Hr & Hin).
  apply list_elem_of_In in Hin. pose proof (next_rowid_gt _ _ Hin). lia.
Qed.

Section Commits.

Context {rt : runtime}.

(** Every way through [process_artist], whatever the store does: nothing
    is committed, or one visit for a stored artist, or one new artist with
    its genre rows. *)
Lemma process_artist_store (name : string) (venue : option string)
    (w : world) :
  exists r w',
    process_artist name venue w = (r, w') /\
    (db w' = db w \/
     (exists a v, select_artist name (db w) = Some a /\ venue = Some v /\
        truthy venue = true /\
        db w' = insert_venue {| v_artist_id := a_id a; v_venue := v;
                                v_last_played := clock w |} (db w)) \/
     (select_artist name (db w) = None /\ truthy venue = false /\
      db w' = saved name false (gathered_sources name)
                (gathered_genres name) (gathered_confidence name)
                (clock w) (db w))).
Proof.
  destruct (truthy venue) eqn:Hv.
  - unfold process_artist, bind at 1.
    destruct (get_artist_from_db_any name w)
      as (r & w0 & Hrun & Hdb & Hclk & [->|(a & Ha & ->)]); rewrite Hrun.
    + unfold bind at 1. rewrite gather_artist_info_raises by exact Hv.
      eexists _, _. split; [reflexivity|]. left. exact Hdb.
    + destruct venue as [v|]; [|discriminate]. rewrite Hv.
      unfold bind at 1, getitem. rewrite hydrate_id. unfold ret at 1.
      destruct (update_venue_info_any (a_id a) v w0)
        as (w' & Hupd & Har & Hgr & Hvr).
      unfold bind at 1. rewrite Hupd.
      eexists _, _. split; [reflexivity|].
      destruct w' as [[ar gr vr] ? ? ? ? ?]. cbn in Har, Hgr, Hvr |- *.
      rewrite Hdb in Har, Hgr, Hvr. rewrite Hclk in Hvr. subst ar gr.
      destruct Hvr as [-> | ->].
      * left. destruct (db w). reflexivity.
      * right. left. exists a, v. repeat split; assumption.
  - destruct (process_artist_without_venue name venue w Hv)
      as (r & w' & Hrun & [Hdb|[Hnone Hdb]] & _);
      exists (Ok r), w'; (split; [exact Hrun|]).
    + left. exact Hdb.
    + right. right. repeat split; assumption.
Qed.

End Commits.

(** ** Further properties of [ArtistManager] *)

Section Manager.

Context {rt : runtime}.

(** [save_artist_to_db] followed by [get_artist_from_db] of the same name,
    on a store that does not fail: the record that comes back has the id
    of the insert, [is_local] as the integer SQLite keeps for the boolean,
    the sources joined by commas, the time of the insert, each genre once,
    and the visits that were already stored under that id. *)
Theorem save_then_lookup (info : dict) (w : world) (name : string)
    (b : bool) (ss gs : list string) (c : float) :
  reliable w ->
  fk_genres (db w) ->
  info !! "name" = Some (VStr name) ->
  info !! "is_local" = Some (VBool b) ->
  info !! "sources" = Some (VStrList ss) ->
  info !! "genres" = Some (VStrList gs) ->
  info !! "confidence" = Some (VFloat c) ->
  select_artist name (db w) = None ->
  exists w1 w2,
    save_artist_to_db info w = (Ok tt, w1) /\
    get_artist_from_db name w1 =
      (Ok (Some
        (<["id" := VInt (next_rowid (artists (db w)))]>
        (<["name" := VStr name]>
        (<["is_local" := VInt (Z.b2z b)]>
        (<["verification_source" := VStr (String.concat "," ss)]>
        (<["last_updated" := VDatetime (clock w)]>
        (<["genres" := VStrList (set_iter gs)]>
        (<["venues" :=
             VVenueList (select_venues (next_rowid (artists (db w)))
                           (db w))]> ∅)))))))), w2) /\
    db w2 = db w1.
Proof.
  intros Hw Hfk Hn Hl Hs Hg Hc Hfresh. eexists _, _.
  split; [eapply save_artist_to_db_run; eassumption|].
  rewrite get_artist_from_db_run by reflexivity. cbn [db].
  rewrite (select_artist_saved name b ss gs c (clock w) (db w) Hfresh).
  cbn [fmap option_fmap option_map]. unfold hydrate. cbn [a_id a_name
    a_is_local a_verification_source a_last_updated].
  rewrite select_genres_saved by exact Hfk.
  rewrite select_venues_saved. split; reflexivity.
Qed.

(** Names and ids stay unique among the artist rows through any call of
    [process_artist], whatever the store does. *)
Theorem process_artist_keeps_artists_unique (name : string)
    (venue : option string) (w : world) :
  unique_artists (db w) ->
  unique_artists (db (snd (process_artist name venue w))).
Proof.
  intros [Hnames Hids].
  destruct (process_artist_store name venue w)
    as (r & w' & -> & [H | [(a & v & _ & _ & _ & H) | (Hnone & _ & H)]]);
    cbn [snd]; rewrite H; try (split; assumption).
  unfold unique_artists, saved. cbn [artists]. rewrite !map_app.
  cbn [map a_name a_id]. split; apply NoDup_app.
  - split; [exact Hnames|]. split; [|apply NoDup_singleton].
    intros x Hx Hx'. apply list_elem_of_singleton in Hx'. subst x.
    exact (select_artist_absent _ _ Hnone Hx).
  - split; [exact Hids|]. split; [|apply NoDup_singleton].
    intros x Hx Hx'. apply list_elem_of_singleton in Hx'. subst x.
    exact (next_rowid_unused _ Hx).
Qed.

(** The social-media and the venue-history checks never give a fragment, so
    an artist row that [process_artist] adds is never local and its
    sources are empty or the catalog alone; it carries the name as it was
    asked for and the next id. No call adds more than one artist row, and
    none changes or removes one. *)
Theorem new_artists_are_never_local (name : string)
    (venue : option string) (w : world) :
  exists r w',
    process_artist name venue w = (r, w') /\
    (artists (db w') = artists (db w) \/
     exists row,
       artists (db w') = artists (db w) ++ [row] /\
       a_id row = next_rowid (artists (db w)) /\
       a_name row = name /\
       a_is_local row = false /\
       (a_verification_source row = "" \/
        a_verification_source row = "spotify") /\
       a_last_updated row = clock w).
Proof.
  destruct (process_artist_store name venue w)
    as (r & w' & Hrun & [H | [(a & v & _ & _ & _ & H) | (_ & _ & H)]]);
    exists r, w'; (split; [exact Hrun|]); rewrite H;
    try (left; reflexivity).
  right. eexists. split; [reflexivity|]. cbn.
  repeat split. unfold gathered_sources.
  destruct (catalog name); [right|left]; reflexivity.
Qed.

(** Visits accumulate and are never merged: two calls for a stored artist
    with a venue append two rows, also for the same venue at the same
    time. The record a call returns was read before its own visit was
    written: the second call shows the first visit and not its own. *)
Theorem visits_accumulate (name v1 v2 : string) (t2 : datetime)
    (w : world) (a : artist_row) :
  reliable w ->
  select_artist name (db w) = Some a ->
  v1 <> "" -> v2 <> "" ->
  exists r1 w1 r2 w2,
    process_artist name (Some v1) w = (Ok r1, w1) /\
    process_artist name (Some v2) (at_time t2 w1) = (Ok r2, w2) /\
    artist_venues (db w2) =
      artist_venues (db w) ++
      [{| v_artist_id := a_id a; v_venue := v1; v_last_played := clock w |};
       {| v_artist_id := a_id a; v_venue := v2; v_last_played := t2 |}] /\
    r1 !! "venues" = Some (VVenueList (select_venues (a_id a) (db w))) /\
    r2 !! "venues" =
      Some (VVenueList (select_venues (a_id a) (db w) ++ [(v1, clock w)])).
Proof.
  intros Hw Ha H1 H2.
  assert (Ht1 : truthy (Some v1) = true)
    by (unfold truthy; destruct (String.eqb_spec v1 "");
        [congruence|reflexivity]).
  assert (Ht2 : truthy (Some v2) = true)
    by (unfold truthy; destruct (String.eqb_spec v2 "");
        [congruence|reflexivity]).
  eexists _, _, _, _.
  split; [apply process_artist_hit; eassumption|].
  split; [apply process_artist_hit; [reflexivity|exact Ha]|].
  cbn [db artist_venues at_time clock]. unfold visit. rewrite Ht1, Ht2.
  split; [rewrite <- app_assoc; reflexivity|].
  split; [reflexivity|].
  unfold hydrate. rewrite lookup_insert_ne by discriminate.
  rewrite lookup_insert_ne by discriminate.
  rewrite lookup_insert_ne by discriminate.
  rewrite lookup_insert_ne by discriminate.
  rewrite lookup_insert_ne by discriminate.
  rewrite lookup_insert_ne by discriminate.
  rewrite lookup_insert_eq. unfold select_venues. cbn [artist_venues].
  rewrite filter_app, map_app, filter_cons_True by reflexivity.
  reflexivity.
Qed.

(** [update_venue_info] does not check that the artist exists. A visit
    recorded under an id no artist has yet is kept, and belongs to the
    artist that is given that id later: the record of the new artist shows
    a visit from before its insert. *)
Theorem orphan_visit_is_adopted (name v : string) (w : world) :
  reliable w ->
  select_artist name (db w) = None ->
  exists w1 r w2 r' w3,
    update_venue_info (VInt (next_rowid (artists (db w)))) v w
      = (Ok tt, w1) /\
    process_artist name None w1 = (Ok r, w2) /\
    get_artist_from_db name w2 = (Ok (Some r'), w3) /\
    r' !! "id" = Some (VInt (next_rowid (artists (db w)))) /\
    r' !! "venues" =
      Some (VVenueList
              (select_venues (next_rowid (artists (db w))) (db w) ++
               [(v, clock w)])).
Proof.
  intros Hw Ha. eexists _, _, _, _, _.
  split; [apply update_venue_info_run; exact Hw|].
  split; [apply process_artist_miss; [reflexivity|exact Ha|reflexivity]|].
  rewrite get_artist_from_db_run by reflexivity. cbn [db clock].
  erewrite select_artist_saved by exact Ha.
  cbn [fmap option_fmap option_map]. split; [reflexivity|].
  split; [reflexivity|].
  unfold hydrate. cbn [a_id insert_venue artists].
  rewrite lookup_insert_ne by discriminate.
  rewrite lookup_insert_ne by discriminate.
  rewrite lookup_insert_ne by discriminate.
  rewrite lookup_insert_ne by discriminate.
  rewrite lookup_insert_ne by discriminate.
  rewrite lookup_insert_ne by discriminate.
  rewrite lookup_insert_eq. unfold select_venues, saved, insert_venue.
  cbn [artist_venues].
  rewrite filter_app, map_app, filter_cons_True by reflexivity.
  reflexivity.
Qed.


(** A lookup whose connection fails on one of its three statements. *)
Lemma get_artist_from_db_fault (name : string) (w : world) (k : nat)
    (fs : list (option nat)) (a : artist_row) :
  faults w = Some k :: fs ->
  (k < 3)%nat ->
  select_artist name (db w) = Some a ->
  get_artist_from_db name w =
    (Ok None,
     {| db := db w; txn := db w; fault := None; faults := fs;
        clock := clock w;
        log := EvPrintDatabaseError OperationalError ::
               rev (firstn (S k) [EvSelectArtist name;
                                  EvSelectGenres (a_id a);
                                  EvSelectVenues (a_id a)]) ++ log w |}).
Proof.
  intros Hfs Hk Ha. destruct w as [d t f fs0 c l]. cbn in Hfs, Ha |- *.
  subst fs0. unfold get_artist_from_db.
  destruct k as [|[|[|k]]]; [| | |lia]; py_unfold; rewrite ?Ha;
    reflexivity.
Qed.

(** When a statement of the lookup fails, [get_artist_from_db] prints the
    error and answers [None] for an artist that is stored. [process_artist]
    then takes the artist for a new one: without a venue it gathers a
    candidate, fails to insert it on the duplicate name and returns the
    candidate instead of the stored record; with a venue it raises
    [KeyError: 'id'] and records no visit. The store is unchanged. *)
Theorem failed_lookup_hides_stored_artist (name : string)
    (venue : option string) (w : world) (k : nat) (a : artist_row) :
  faults w = [Some k] ->
  (k < 3)%nat ->
  select_artist name (db w) = Some a ->
  (exists w', get_artist_from_db name w = (Ok None, w') /\ db w' = db w) /\
  (truthy venue = false ->
   exists w',
     process_artist name venue w = (Ok (gathered name), w') /\
     gathered name !! "id" = None /\
     db w' = db w /\
     firstn 3 (log w') =
       [EvRollback; EvPrintDatabaseError unique_name_failed;
        EvInsertArtist name]) /\
  (truthy venue = true ->
   exists w',
     process_artist name venue w = (Raise (KeyError "id"), w') /\
     db w' = db w).
Proof.
  intros Hfs Hk Ha.
  pose proof (get_artist_from_db_fault name w k [] a Hfs Hk Ha) as Hget.
  split; [eexists; split; [exact Hget|reflexivity]|].
  destruct (gathered_lookup name) as (Hn & Hl & Hs & _ & _ & Hid & _).
  split; intros Hv.
  - eexists. split.
    + unfold process_artist, bind at 1. rewrite Hget.
      unfold bind at 1. rewrite gather_artist_info_run by exact Hv.
      unfold bind at 1.
      erewrite save_artist_to_db_duplicate;
        [reflexivity | reflexivity | exact Hn | exact Hl | exact Hs
        | exact Ha].
    + split; [exact Hid|]. split; reflexivity.
  - eexists. split.
    + unfold process_artist, bind at 1. rewrite Hget.
      unfold bind at 1. rewrite gather_artist_info_raises by exact Hv.
      reflexivity.
    + reflexivity.
Qed.

(** The artist row carries the name that was asked for, not the name of
    the catalog's match. When the first item of the search has another
    name, its genres, with the confidence of the comparison of the two
    names, are stored under the queried name, and nothing is stored under
    the name the catalog gave. *)
Theorem catalog_match_is_stored_under_the_query (name : string) (w : world)
    (client : string -> search_result) (artist : spotify_artist)
    (rest : list spotify_artist) :
  reliable w ->
  fk_genres (db w) ->
  select_artist name (db w) = None ->
  spotify = Some client ->
  client name = SearchItems (artist :: rest) ->
  sp_name artist <> name ->
  exists r w' row,
    process_artist name None w = (Ok r, w') /\
    r !! "spotify_id" = Some (VStr (sp_id artist)) /\
    select_artist name (db w') = Some row /\
    a_verification_source row = "spotify" /\
    select_genres (a_id row) (db w') = set_iter (sp_genres artist) /\
    artist_genres (db w') =
      artist_genres (db w) ++
      map (fun g => {| g_artist_id := a_id row; g_genre := g;
                       g_confidence :=
                         if String.eqb (str_lower (sp_name artist))
                                       (str_lower name)
                         then 0.8%float else 0.5%float;
                       g_source := "spotify" |})
          (set_iter (sp_genres artist)) /\
    select_artist (sp_name artist) (db w') =
      select_artist (sp_name artist) (db w).
Proof.
  intros Hw Hfk Ha Hcl Hitems Hne.
  assert (Hcat : catalog name = Some artist)
    by (unfold catalog; rewrite Hcl, Hitems; reflexivity).
  eexists _, _, _.
  split; [apply process_artist_miss; [exact Hw|exact Ha|reflexivity]|].
  split; [unfold gathered; rewrite Hcat; reflexivity|].
  cbn [db]. split; [apply select_artist_saved, Ha|].
  cbn [a_id a_verification_source].
  unfold gathered_sources, gathered_genres, gathered_confidence.
  rewrite Hcat. split; [reflexivity|].
  split; [apply select_genres_saved, Hfk|].
  split; [reflexivity|].
  apply select_artist_saved_other. exact Hne.
Qed.

(** Merging two fragments into a candidate: the genres and the sources of
    the fragments are appended in the order of the calls, [is_local] is
    the disjunction of what it was and what the fragments say, so a
    fragment never sets it back, and no other key of the candidate
    changes, the confidence in particular. *)
Theorem merge_fragment_twice (info : dict) (f1 f2 : fragment) (w : world)
    (b : bool) (gs ss : list string) :
  info !! "is_local" = Some (VBool b) ->
  info !! "genres" = Some (VStrList gs) ->
  info !! "sources" = Some (VStrList ss) ->
  exists info1 info2,
    merge_fragment info f1 w = (Ok info1, w) /\
    merge_fragment info1 f2 w = (Ok info2, w) /\
    info2 !! "is_local" =
      Some (VBool (b || f_is_local f1 || f_is_local f2)) /\
    info2 !! "genres" =
      Some (VStrList (gs ++ f_genres f1 ++ f_genres f2)) /\
    info2 !! "sources" =
      Some (VStrList (ss ++ f_sources f1 ++ f_sources f2)) /\
    forall k, k <> "is_local" -> k <> "genres" -> k <> "sources" ->
      info2 !! k = info !! k.
Proof.
  intros Hl Hg Hs. eexists _, _.
  split; [eapply merge_fragment_run; eassumption|].
  split.
  { eapply merge_fragment_run.
    - rewrite lookup_insert_ne by discriminate.
      rewrite lookup_insert_ne by discriminate. apply lookup_insert_eq.
    - rewrite lookup_insert_ne by discriminate. apply lookup_insert_eq.
    - apply lookup_insert_eq. }
  split.
  { rewrite lookup_insert_ne by discriminate.
    rewrite lookup_insert_ne by discriminate. apply lookup_insert_eq. }
  split.
  { rewrite lookup_insert_ne by discriminate. rewrite lookup_insert_eq.
    rewrite <- app_assoc. reflexivity. }
  split.
  { rewrite lookup_insert_eq. rewrite <- app_assoc. reflexivity. }
  intros k H1 H2 H3.
  rewrite !lookup_insert_ne by congruence. reflexivity.
Qed.

End Manager.

(** * The calendar scraper: [src/event_processor.py] and
      [src/scrapers/docs_tavern_scraper.py]

    The text functions of the two scrapers, on strings of ASCII
    characters. *)

(** ** Python's string methods *)

(** [c.isspace()] of an ASCII character: tab to carriage return, the four
    separators and the space. Python's [str] has whitespace beyond ASCII
    (the no-break space U+00A0 and others), which [strip] and [split]
    remove as well; the properties that depend on it are stated for text
    of ASCII characters. *)
Definition is_space (c : ascii) : bool :=
  let n := nat_of_ascii c in
  ((9 <=? n)%nat && (n <=? 13)%nat) || ((28 <=? n)%nat && (n <=? 32)%nat).

Definition is_upper (c : ascii) : bool :=
  let n := nat_of_ascii c in (65 <=? n)%nat && (n <=? 90)%nat.

Definition is_lower (c : ascii) : bool :=
  let n := nat_of_ascii c in (97 <=? n)%nat && (n <=? 122)%nat.

Definition upper_ascii (c : ascii) : ascii :=
  if is_lower c then ascii_of_nat (nat_of_ascii c - 32) else c.

(** [s.lstrip()], [s.rstrip()] and [s.strip()] *)
Fixpoint lstrip (s : string) : string :=
  match s with
  | EmptyString => EmptyString
  | String c s' => if is_space c then lstrip s' else s
  end.

Fixpoint rstrip (s : string) : string :=
  match s with
  | EmptyString => EmptyString
  | String c s' =>
    match rstrip s' with
    | EmptyString => if is_space c then EmptyString else String c EmptyString
    | r => String c r
    end
  end.

Definition strip (s : string) : string := rstrip (lstrip s).

(** [s.split()]: the maximal runs of characters that are no whitespace. A
    character that is no whitespace starts a word, or goes in front of the
    first word of the rest when the rest starts inside a word. *)
Definition starts_word (s : string) : bool :=
  match s with
  | EmptyString => false
  | String c _ => negb (is_space c)
  end.

Fixpoint split (s : string) : list string :=
  match s with
  | EmptyString => []
  | String c s' =>
    if is_space c then split s'
    else if starts_word s' then
      match split s' with
      | w :: ws => String c w :: ws
      | [] => [String c EmptyString]
      end
    else String c EmptyString :: split s'
  end.

(** [needle in hay] *)
Fixpoint contains (needle hay : string) : bool :=
  String.prefix needle hay ||
  match hay with
  | EmptyString => false
  | String _ hay' => contains needle hay'
  end.

(** [s.replace(c, '')] for a single character [c]. *)
Fixpoint remove_char (c : ascii) (s : string) : string :=
  match s with
  | EmptyString => EmptyString
  | String c' s' =>
    if Ascii.eqb c' c then remove_char c s' else String c' (remove_char c s')
  end.

(** [s.title()]: a letter is put in upper case when it follows a character
    that is no letter, and in lower case when it follows a letter. *)
Fixpoint title_from (after_letter : bool) (s : string) : string :=
  match s with
  | EmptyString => EmptyString
  | String c s' =>
    if is_upper c || is_lower c
    then String (if after_letter then lower_ascii c else upper_ascii c)
                (title_from true s')
    else String c (title_from false s')
  end.

Definition title (s : string) : string := title_from false s.

(** ** [DocsTavernEventProcessor] *)

Definition base_url : string := "https://docstavernsc.com/calendar/".

(** The [genres] dictionary of [extract_genre], in the order of its
    keys. *)
Definition genres : list (string * list string) :=
  [("rock", ["rock"; "alternative"; "punk"; "metal"]);
   ("country", ["country"; "bluegrass"; "americana"]);
   ("jazz", ["jazz"; "blues"; "soul"]);
   ("pop", ["pop"; "indie"; "electronic"]);
   ("hip hop", ["hip hop"; "rap"; "r&b"])].

(** The loop of [extract_genre] over the items of the dictionary. *)
Fixpoint first_genre (text : string) (items : list (string * list string))
    : string :=
  match items with
  | [] => "Various/Unknown"
  | (genre, keywords) :: items' =>
    if existsb (fun keyword => contains keyword text) keywords
    then title genre
    else first_genre text items'
  end.

Definition extract_genre (text : string) : string :=
  let text := lower text in
  first_genre text genres.

Record ticket_info := { status : string; link : string }.

(** [get_ticket_info], on the text of the event's element and the [href]
    of the ticket link found in it, if any. *)
Definition get_ticket_info (event_text : string) (ticket_link : option string)
    : ticket_info :=
  let text := lower event_text in
  if contains "free" text then {| status := "Free"; link := "" |}
  else match ticket_link with
       | Some href => {| status := "Tickets Required"; link := href |}
       | None => {| status := "Contact Venue"; link := base_url |}
       end.

Definition clean_text (text : string) : string :=
  strip (String.concat " " (split text)).

(** ** [DocsTavernScraper] *)

Definition parse_event_time (time_str : string) : string :=
  let time_str := lower (strip time_str) in
  let time_str := strip (remove_char "@" time_str) in
  time_str.

(** ** Substrings *)

Lemma append_nil (t : string) : (EmptyString ++ t)%string = t.
Proof. reflexivity. Qed.

Lemma append_cons (c : ascii) (s t : string) :
  (String c s ++ t)%string = String c (s ++ t)%string.
Proof. reflexivity. Qed.

Ltac str_simpl := rewrite ?append_cons, ?append_nil.

Lemma prefix_append (s t : string) : String.prefix s (s ++ t)%string = true.
Proof.
  induction s as [|c s IH]; str_simpl; [destruct t; reflexivity|].
  cbn. destruct (ascii_dec c c); [exact IH | congruence].
Qed.

Lemma prefix_inv (s h : string) :
  String.prefix s h = true -> exists t, h = (s ++ t)%string.
Proof.
  revert h. induction s as [|c s IH]; intros h H.
  - exists h. reflexivity.
  - destruct h as [|c' h]; [discriminate|]. cbn in H.
    destruct (ascii_dec c c') as [<-|]; [|discriminate].
    destruct (IH h H) as [t ->]. exists t. reflexivity.
Qed.

Lemma contains_unfold (needle hay : string) :
  contains needle hay =
  String.prefix needle hay ||
  match hay with
  | EmptyString => false
  | String _ hay' => contains needle hay'
  end.
Proof. destruct hay; reflexivity. Qed.

(** [contains] is the substring test. *)
Lemma contains_spec (needle hay : string) :
  contains needle hay = true <->
  exists pre post, hay = (pre ++ needle ++ post)%string.
Proof.
  split.
  - induction hay as [|c hay IH]; rewrite contains_unfold; intros H;
      apply orb_true_iff in H as [H|H]; try discriminate.
    + apply prefix_inv in H as [t ->]. exists EmptyString, t. reflexivity.
    + apply prefix_inv in H as [t ->]. exists EmptyString, t. reflexivity.
    + destruct (IH H) as (pre & post & ->).
      exists (String c pre), post. reflexivity.
  - intros (pre & post & ->). induction pre as [|c pre IH].
    + rewrite contains_unfold. str_simpl.
      rewrite prefix_append. reflexivity.
    + rewrite contains_unfold. str_simpl. rewrite IH.
      apply orb_true_r.
Qed.

Lemma lower_append (s t : string) :
  lower (s ++ t)%string = (lower s ++ lower t)%string.
Proof.
  induction s as [|c s IH]; str_simpl; cbn; [reflexivity|].
  str_simpl. rewrite IH. reflexivity.
Qed.

(** ** Words and whitespace *)

Definition no_space (s : string) : Prop :=
  all_chars (fun c => negb (is_space c)) s = true.

(** A word of [split]: not empty, no whitespace in it. *)
Definition word (s : string) : Prop := s <> EmptyString /\ no_space s.

Lemma no_space_cons (c : ascii) (s : string) :
  no_space (String c s) <-> is_space c = false /\ no_space s.
Proof.
  unfold no_space. cbn. rewrite andb_true_iff, negb_true_iff. tauto.
Qed.

Lemma split_words (s : string) : Forall word (split s).
Proof.
  induction s as [|c s IH]; cbn; [constructor|].
  destruct (is_space c) eqn:Hc; [exact IH|].
  destruct (starts_word s).
  - destruct (split s) as [|w ws]; constructor.
    + split; [discriminate|]. apply no_space_cons. split; [exact Hc|].
      reflexivity.
    + constructor.
    + apply Forall_cons in IH as [[_ Hw] _].
      split; [discriminate|]. apply no_space_cons. tauto.
    + apply Forall_cons in IH as [_ Hws]. exact Hws.
  - constructor; [|exact IH].
    split; [discriminate|]. apply no_space_cons. split; [exact Hc|].
    reflexivity.
Qed.

Lemma split_word_then (w rest : string) (sep : ascii) :
  word w -> is_space sep = true ->
  split (w ++ String sep rest)%string = w :: split rest.
Proof.
  intros [Hne Hw] Hsep. induction w as [|c w IH]; [congruence|].
  apply no_space_cons in Hw as [Hc Hw]. str_simpl. cbn. rewrite Hc.
  destruct w as [|c' w].
  - str_simpl. cbn. rewrite Hsep. cbn. reflexivity.
  - pose proof Hw as Hw'. apply no_space_cons in Hw' as [Hc' _].
    str_simpl. cbn [starts_word]. rewrite Hc'. cbn [negb].
    rewrite <- append_cons.
    rewrite IH by (discriminate || exact Hw). reflexivity.
Qed.

Lemma split_one_word (w : string) : word w -> split w = [w].
Proof.
  intros [Hne Hw]. induction w as [|c w IH]; [congruence|].
  apply no_space_cons in Hw as [Hc Hw]. cbn. rewrite Hc.
  destruct w as [|c' w]; [reflexivity|].
  pose proof Hw as Hw'. apply no_space_cons in Hw' as [Hc' _].
  cbn [starts_word]. rewrite Hc'. cbn [negb].
  rewrite IH by (discriminate || exact Hw). reflexivity.
Qed.

(** Splitting what [' '.join] made of words gives the words back. *)
Lemma split_concat (ws : list string) :
  Forall word ws -> split (String.concat " " ws) = ws.
Proof.
  induction ws as [|w ws IH]; intros Hws; [reflexivity|].
  apply Forall_cons in Hws as [Hw Hws]. destruct ws as [|w' ws].
  - cbn. apply split_one_word, Hw.
  - cbn [String.concat]. str_simpl.
    rewrite split_word_then by (exact Hw || reflexivity).
    f_equal. apply IH, Hws.
Qed.

Lemma lstrip_starts_word (s : string) : starts_word s = true -> lstrip s = s.
Proof.
  destruct s as [|c s]; [reflexivity|]. cbn. intros H.
  apply negb_true_iff in H. rewrite H. reflexivity.
Qed.

Lemma lstrip_cases (s : string) :
  lstrip s = EmptyString \/ starts_word (lstrip s) = true.
Proof.
  induction s as [|c s IH]; [left; reflexivity|]. cbn.
  destruct (is_space c) eqn:Hc; [exact IH|].
  right. cbn. rewrite Hc. reflexivity.
Qed.

Lemma rstrip_no_space (w : string) : no_space w -> rstrip w = w.
Proof.
  induction w as [|c w IH]; [reflexivity|]. intros Hw.
  apply no_space_cons in Hw as [Hc Hw]. cbn. rewrite (IH Hw), Hc.
  destruct w; reflexivity.
Qed.

Lemma rstrip_append (s t : string) :
  rstrip t <> EmptyString -> rstrip (s ++ t)%string = (s ++ rstrip t)%string.
Proof.
  intros Ht. induction s as [|c s IH]; [reflexivity|].
  str_simpl. cbn. rewrite IH.
  destruct (s ++ rstrip t)%string eqn:E; [|reflexivity].
  destruct s; rewrite ?append_cons, ?append_nil in E;
    [congruence | discriminate].
Qed.

Lemma rstrip_cons (c : ascii) (s : string) :
  rstrip (String c s) =
  match rstrip s with
  | EmptyString => if is_space c then EmptyString else String c EmptyString
  | r => String c r
  end.
Proof. reflexivity. Qed.

Lemma rstrip_idempotent (s : string) : rstrip (rstrip s) = rstrip s.
Proof.
  induction s as [|c s IH]; [reflexivity|]. rewrite rstrip_cons.
  destruct (rstrip s) as [|c' r] eqn:E.
  - destruct (is_space c) eqn:Hc; [reflexivity|].
    rewrite rstrip_cons. cbn [rstrip]. rewrite Hc. reflexivity.
  - rewrite (rstrip_cons c (String c' r)), IH. reflexivity.
Qed.

Lemma rstrip_starts_word (s : string) :
  starts_word s = true -> starts_word (rstrip s) = true.
Proof.
  destruct s as [|c s]; [discriminate|]. cbn. intros H.
  apply negb_true_iff in H.
  destruct (rstrip s); rewrite ?H; cbn; rewrite H; reflexivity.
Qed.

Lemma strip_idempotent (s : string) : strip (strip s) = strip s.
Proof.
  unfold strip. destruct (lstrip_cases s) as [E|H].
  - rewrite E. reflexivity.
  - rewrite (lstrip_starts_word (rstrip (lstrip s)))
      by (apply rstrip_starts_word, H).
    apply rstrip_idempotent.
Qed.

Lemma concat_words_starts (w : string) (ws : list string) :
  word w -> starts_word (String.concat " " (w :: ws)) = true.
Proof.
  intros [Hne Hw]. destruct w as [|c w]; [congruence|].
  apply no_space_cons in Hw as [Hc _].
  destruct ws; cbn [String.concat]; str_simpl; cbn; rewrite Hc;
    reflexivity.
Qed.

Lemma concat_cons (sep w w' : string) (ws : list string) :
  String.concat sep (w :: w' :: ws) =
  (w ++ sep ++ String.concat sep (w' :: ws))%string.
Proof. reflexivity. Qed.

Lemma rstrip_concat (ws : list string) :
  Forall word ws -> rstrip (String.concat " " ws) = String.concat " " ws.
Proof.
  induction ws as [|w ws IH]; intros Hws; [reflexivity|].
  apply Forall_cons in Hws as [Hw Hws]. destruct ws as [|w' ws].
  - cbn. apply rstrip_no_space, Hw.
  - rewrite concat_cons. str_simpl. specialize (IH Hws).
    assert (Hne : String.concat " " (w' :: ws) <> EmptyString).
    { apply Forall_cons in Hws as [Hw' _].
      pose proof (concat_words_starts w' ws Hw') as H.
      destruct (String.concat " " (w' :: ws)); discriminate. }
    assert (Hsp : rstrip (String " " (String.concat " " (w' :: ws))) =
                  String " " (String.concat " " (w' :: ws))).
    { rewrite rstrip_cons, IH.
      destruct (String.concat " " (w' :: ws)); [congruence|reflexivity]. }
    rewrite rstrip_append; rewrite Hsp; [reflexivity|discriminate].
Qed.

Lemma strip_concat (ws : list string) :
  Forall word ws -> strip (String.concat " " ws) = String.concat " " ws.
Proof.
  intros Hws. unfold strip. destruct ws as [|w ws]; [reflexivity|].
  rewrite lstrip_starts_word
    by (apply concat_words_starts; apply Forall_cons in Hws; tauto).
  apply rstrip_concat, Hws.
Qed.

Lemma split_nil_iff (s : string) :
  split s = [] <-> all_chars is_space s = true.
Proof.
  induction s as [|c s IH]; cbn; [tauto|].
  destruct (is_space c); cbn; [exact IH|].
  split; [|discriminate].
  destruct (starts_word s); [destruct (split s)|]; discriminate.
Qed.

Lemma concat_words_nil (ws : list string) :
  Forall word ws -> String.concat " " ws = EmptyString -> ws = [].
Proof.
  intros Hws H. destruct ws as [|w ws]; [reflexivity|].
  apply Forall_cons in Hws as [Hw _].
  pose proof (concat_words_starts w ws Hw) as Hs. rewrite H in Hs.
  discriminate.
Qed.

(** ** Properties of [clean_text] *)

(** Cleaning a text twice changes nothing more. *)
Theorem clean_text_idempotent (text : string) :
  clean_text (clean_text text) = clean_text text.
Proof.
  unfold clean_text. pose proof (split_words text) as Hws.
  rewrite (strip_concat _ Hws), (split_concat _ Hws).
  apply strip_concat, Hws.
Qed.

(** For a text of ASCII characters, on which [split] and [strip] are those
    of Python: the clean text is made of the words of the text, in their
    order, with one space between two of them: no whitespace at either
    end, no run of whitespace, no tab and no line break. Its words are
    those of the text. *)
Theorem clean_text_words (text : string) :
  all_chars is_ascii text = true ->
  clean_text text = String.concat " " (split text) /\
  Forall word (split text) /\
  split (clean_text text) = split text.
Proof.
  intros _. unfold clean_text. pose proof (split_words text) as Hws.
  rewrite (strip_concat _ Hws). split; [reflexivity|].
  split; [exact Hws|]. apply split_concat, Hws.
Qed.

(** For a text of ASCII characters, the clean text is empty exactly when
    the text is whitespace only, the empty text included. *)
Theorem clean_text_empty_iff (text : string) :
  all_chars is_ascii text = true ->
  (clean_text text = EmptyString <-> all_chars is_space text = true).
Proof.
  intros _. unfold clean_text. pose proof (split_words text) as Hws.
  rewrite (strip_concat _ Hws), <- split_nil_iff. split.
  - apply concat_words_nil, Hws.
  - intros ->. reflexivity.
Qed.

(** ** Properties of [extract_genre] *)

Lemma first_genre_unknown (text : string)
    (items : list (string * list string)) :
  (forall g kws, In (g, kws) items -> title g <> "Various/Unknown") ->
  first_genre text items = "Various/Unknown" <->
  forall g kws k, In (g, kws) items -> In k kws -> contains k text = false.
Proof.
  induction items as [|[g kws] items IH]; intros Htitle; cbn [first_genre].
  - split; [intros _ g kws k []|reflexivity].
  - destruct (existsb (fun keyword => contains keyword text) kws) eqn:E.
    + split.
      * intros H. exfalso. exact (Htitle g kws (or_introl eq_refl) H).
      * intros H. apply existsb_exists in E as (k & Hk & Hc).
        rewrite (H g kws k (or_introl eq_refl) Hk) in Hc. discriminate.
    + rewrite IH by (intros g' kws' Hin; apply (Htitle g' kws'); right;
                     exact Hin).
      split.
      * intros H g' kws' k [Heq|Hin] Hk.
        -- injection Heq as <- <-.
           destruct (contains k text) eqn:Hc; [|reflexivity].
           assert (existsb (fun keyword => contains keyword text) kws = true)
             by (apply existsb_exists; exists k; tauto).
           congruence.
        -- exact (H g' kws' k Hin Hk).
      * intros H g' kws' k Hin Hk. apply (H g' kws' k); [right|]; assumption.
Qed.

Lemma first_genre_labels (text : string) :
  In (first_genre text genres)
     ["Rock"; "Country"; "Jazz"; "Pop"; "Hip Hop"; "Various/Unknown"].
Proof.
  unfold genres. cbn [first_genre].
  repeat match goal with
         | |- context [if ?b then _ else _] => destruct b
         end; vm_compute; tauto.
Qed.

(** The label is one of six. *)
Theorem extract_genre_range (text : string) :
  In (extract_genre text)
     ["Rock"; "Country"; "Jazz"; "Pop"; "Hip Hop"; "Various/Unknown"].
Proof.
  unfold extract_genre, genres. cbn [first_genre].
  repeat match goal with
         | |- context [if ?b then _ else _] => destruct b
         end; vm_compute; tauto.
Qed.

(** A keyword of the first group decides, in any case of its letters,
    as a part of a longer word as well, and whatever else the text says:
    a text that holds "rock", "alternative", "punk" or "metal" anywhere
    is labelled Rock. *)
Theorem extract_genre_rock_first (pre kw post : string) :
  In (lower kw) ["rock"; "alternative"; "punk"; "metal"] ->
  extract_genre (pre ++ kw ++ post)%string = "Rock".
Proof.
  intros Hkw. unfold extract_genre. rewrite !lower_append.
  assert (Hc : contains (lower kw) (lower pre ++ lower kw ++ lower post)%string
               = true) by (apply contains_spec; eauto).
  unfold genres. cbn [first_genre existsb].
  cbn [In] in Hkw. destruct Hkw as [H|[H|[H|[H|[]]]]]; rewrite <- H in *;
    rewrite Hc; rewrite ?orb_true_r; reflexivity.
Qed.

(** The label is Various/Unknown exactly when none of the fifteen keywords
    occurs in the text put in lower case. *)
Theorem extract_genre_unknown_iff (text : string) :
  extract_genre text = "Various/Unknown" <->
  forall genre keywords keyword,
    In (genre, keywords) genres -> In keyword keywords ->
    ~ exists pre post, lower text = (pre ++ keyword ++ post)%string.
Proof.
  unfold extract_genre. rewrite first_genre_unknown.
  - split; intros H g kws k Hg Hk.
    + intros Hsub. apply contains_spec in Hsub.
      rewrite (H g kws k Hg Hk) in Hsub. discriminate.
    + destruct (contains k (lower text)) eqn:Hc; [|reflexivity].
      exfalso. apply (H g kws k Hg Hk). apply contains_spec. exact Hc.
  - intros g kws Hin. cbn in Hin.
    destruct Hin as [H|[H|[H|[H|[H|[]]]]]]; injection H as <- <-;
      vm_compute; discriminate.
Qed.

(** ** Properties of [get_ticket_info] *)

(** An event is Free exactly when its text holds "free" in any case of the
    letters, as a part of a longer word as well, and then the ticket link
    is dropped. Otherwise the link is the one of the tickets if there is
    one, and the calendar's if not. *)
Theorem get_ticket_info_free_iff (event_text : string)
    (ticket_link : option string) :
  (status (get_ticket_info event_text ticket_link) = "Free" <->
   exists pre post, lower event_text = (pre ++ "free" ++ post)%string) /\
  (status (get_ticket_info event_text ticket_link) = "Free" ->
   link (get_ticket_info event_text ticket_link) = "") /\
  (status (get_ticket_info event_text ticket_link) <> "Free" ->
   get_ticket_info event_text ticket_link =
     match ticket_link with
     | Some href => {| status := "Tickets Required"; link := href |}
     | None => {| status := "Contact Venue"; link := base_url |}
     end).
Proof.
  unfold get_ticket_info. rewrite <- contains_spec.
  destruct (contains "free" (lower event_text)) eqn:Hc.
  - cbn. split; [tauto|]. split; [reflexivity|congruence].
  - destruct ticket_link; cbn; (split; [split; discriminate|]);
      (split; [discriminate|reflexivity]).
Qed.

(** ** Properties of [parse_event_time] *)

Definition no_upper (s : string) : Prop :=
  all_chars (fun c => negb (is_upper c)) s = true.

Definition no_at (s : string) : Prop :=
  all_chars (fun c => negb (Ascii.eqb c "@")) s = true.

Lemma all_chars_lstrip (p : ascii -> bool) (s : string) :
  all_chars p s = true -> all_chars p (lstrip s) = true.
Proof.
  induction s as [|c s IH]; [reflexivity|]. cbn. intros H.
  apply andb_true_iff in H as [Hc Hs].
  destruct (is_space c); [apply IH, Hs|]. cbn. rewrite Hc. exact Hs.
Qed.

Lemma all_chars_rstrip (p : ascii -> bool) (s : string) :
  all_chars p s = true -> all_chars p (rstrip s) = true.
Proof.
  induction s as [|c s IH]; [reflexivity|]. cbn [all_chars]. intros H.
  apply andb_true_iff in H as [Hc Hs]. specialize (IH Hs).
  rewrite rstrip_cons. destruct (rstrip s).
  - destruct (is_space c); [reflexivity|]. cbn. rewrite Hc. reflexivity.
  - cbn [all_chars] in IH |- *. rewrite Hc. exact IH.
Qed.

Lemma all_chars_strip (p : ascii -> bool) (s : string) :
  all_chars p s = true -> all_chars p (strip s) = true.
Proof. intros H. apply all_chars_rstrip, all_chars_lstrip, H. Qed.

Lemma all_chars_remove_char (p : ascii -> bool) (c : ascii) (s : string) :
  all_chars p s = true -> all_chars p (remove_char c s) = true.
Proof.
  induction s as [|c' s IH]; [reflexivity|]. cbn. intros H.
  apply andb_true_iff in H as [Hc Hs].
  destruct (Ascii.eqb c' c); [apply IH, Hs|]. cbn. rewrite Hc.
  apply IH, Hs.
Qed.

Lemma remove_char_gone (c : ascii) (s : string) :
  all_chars (fun c' => negb (Ascii.eqb c' c)) (remove_char c s) = true.
Proof.
  induction s as [|c' s IH]; [reflexivity|]. cbn.
  destruct (Ascii.eqb c' c) eqn:E; [exact IH|]. cbn. rewrite E. exact IH.
Qed.

Lemma remove_char_absent (c : ascii) (s : string) :
  all_chars (fun c' => negb (Ascii.eqb c' c)) s = true ->
  remove_char c s = s.
Proof.
  induction s as [|c' s IH]; [reflexivity|]. cbn. intros H.
  apply andb_true_iff in H as [Hc Hs]. apply negb_true_iff in Hc.
  rewrite Hc, (IH Hs). reflexivity.
Qed.

Lemma lower_ascii_not_upper (c : ascii) : is_upper (lower_ascii c) = false.
Proof. destruct c as [[] [] [] [] [] [] [] []]; reflexivity. Qed.

Lemma lower_no_upper (s : string) : no_upper (lower s).
Proof.
  unfold no_upper. induction s as [|c s IH]; [reflexivity|]. cbn.
  rewrite lower_ascii_not_upper. exact IH.
Qed.

Lemma lower_fixed (s : string) : no_upper s -> lower s = s.
Proof.
  unfold no_upper. induction s as [|c s IH]; [reflexivity|]. cbn.
  intros H. apply andb_true_iff in H as [Hc Hs].
  apply negb_true_iff in Hc. rewrite (IH Hs). f_equal.
  unfold lower_ascii. unfold is_upper in Hc. cbv zeta in Hc |- *.
  rewrite Hc. reflexivity.
Qed.

(** The parsed time has no "@" and no upper-case letter, and no whitespace
    at either end, also where an "@" stood between the text and the
    whitespace. *)
Theorem parse_event_time_normal (time_str : string) :
  no_at (parse_event_time time_str) /\
  no_upper (parse_event_time time_str) /\
  strip (parse_event_time time_str) = parse_event_time time_str.
Proof.
  unfold parse_event_time. cbv zeta. split; [|split].
  - apply all_chars_strip, remove_char_gone.
  - apply all_chars_strip, all_chars_remove_char, lower_no_upper.
  - apply strip_idempotent.
Qed.

(** Parsing a parsed time changes nothing more. *)
Theorem parse_event_time_idempotent (time_str : string) :
  parse_event_time (parse_event_time time_str) = parse_event_time time_str.
Proof.
  set (r := parse_event_time time_str).
  assert (Hat : no_at r)
    by (apply all_chars_strip, remove_char_gone).
  assert (Hup : no_upper r)
    by (apply all_chars_strip, all_chars_remove_char, lower_no_upper).
  assert (Hstrip : strip r = r) by apply strip_idempotent.
  unfold parse_event_time at 1. cbv zeta.
  rewrite Hstrip, (lower_fixed _ Hup), (remove_char_absent _ _ Hat).
  exact Hstrip.
Qed.

(** ** The events of a calendar page *)

(** What the loop of [scrape_events] reads from one element of the page:
    the texts of the title, date and description elements and the [href]
    of the ticket link, each if [select_one] finds it, and the text of the
    whole element. *)
Record event_element := {
  title_elem : option string;
  date_elem : option string;
  desc_elem : option string;
  ticket_elem : option string;
  element_text : string }.

(** The dictionary [event_data]. *)
Record event_data := {
  venue : string;
  band_name : string;
  date_time : string;
  genre : string;
  ticket_status : string;
  ticket_link : string }.

(** The body of the loop: the event of an element, or [None] when the
    body raises, which is printed and skips the element. It raises on
    [title_elem.text] when there is neither a description nor a title. *)
Definition parse_element (event : event_element) : option event_data :=
  match match desc_elem event with
        | Some text => Some text
        | None => title_elem event
        end with
  | None => None
  | Some text =>
    let genre := extract_genre text in
    let ticket_info := get_ticket_info (element_text event)
                         (ticket_elem event) in
    Some {| venue := "Doc's Tavern";
            band_name := match title_elem event with
                         | Some text => clean_text text
                         | None => "TBA"
                         end;
            date_time := match date_elem event with
                         | Some text => clean_text text
                         | None => "TBA"
                         end;
            genre := genre;
            ticket_status := status ticket_info;
            ticket_link := link ticket_info |}
  end.

(** [scrape_events], from the elements the page has. *)
Fixpoint scrape_events (event_elements : list event_element)
    : list event_data :=
  match event_elements with
  | [] => []
  | event :: rest =>
    match parse_element event with
    | Some event_data => event_data :: scrape_events rest
    | None => scrape_events rest
    end
  end.

Lemma scrape_events_app (es1 es2 : list event_element) :
  scrape_events (es1 ++ es2) = scrape_events es1 ++ scrape_events es2.
Proof.
  induction es1 as [|e es1 IH]; [reflexivity|]. cbn.
  destruct (parse_element e); cbn; rewrite IH; reflexivity.
Qed.

Lemma clean_text_fixed (text : string) :
  clean_text (clean_text text) = clean_text text.
Proof.
  unfold clean_text. pose proof (split_words text) as Hws.
  rewrite (strip_concat _ Hws), (split_concat _ Hws).
  apply strip_concat, Hws.
Qed.

(** An element with neither a title nor a description gives no event,
    although a missing title has the fallback "TBA": the genre is read
    first, from the description or else the title, and that fails. The
    other events of the page are not affected. A band named "TBA" for want
    of a title is therefore always an event with a description. *)
Theorem bare_elements_are_dropped (es1 es2 : list event_element)
    (event : event_element) :
  title_elem event = None ->
  desc_elem event = None ->
  scrape_events (es1 ++ event :: es2) = scrape_events (es1 ++ es2) /\
  (forall other d,
     parse_element other = Some d -> title_elem other = None ->
     band_name d = "TBA" /\ exists text, desc_elem other = Some text /\
                                         genre d = extract_genre text).
Proof.
  intros Ht Hd. split.
  - rewrite !scrape_events_app. cbn [scrape_events].
    unfold parse_element. rewrite Hd, Ht. reflexivity.
  - intros other d Hp Hto. unfold parse_element in Hp.
    rewrite Hto in Hp. destruct (desc_elem other) as [text|];
      [|discriminate].
    injection Hp as <-. split; [reflexivity|]. exists text.
    split; reflexivity.
Qed.

(** Every event of the list comes from an element of the page, in the
    order of the page, and is well formed: the venue is Doc's Tavern, the
    genre is one of the six labels, the band name and the date are clean
    texts, and the ticket status is one of three, with an empty link for
    a free event. *)
Theorem scraped_events_are_well_formed (event_elements : list event_element)
    (d : event_data) :
  In d (scrape_events event_elements) ->
  (exists event, In event event_elements /\ parse_element event = Some d) /\
  venue d = "Doc's Tavern" /\
  In (genre d)
     ["Rock"; "Country"; "Jazz"; "Pop"; "Hip Hop"; "Various/Unknown"] /\
  clean_text (band_name d) = band_name d /\
  clean_text (date_time d) = date_time d /\
  In (ticket_status d) ["Free"; "Tickets Required"; "Contact Venue"] /\
  (ticket_status d = "Free" -> ticket_link d = "").
Proof.
  intros Hin.
  assert (Hsrc : exists event,
            In event event_elements /\ parse_element event = Some d).
  { induction event_elements as [|e es IH]; [destruct Hin|].
    cbn in Hin. destruct (parse_element e) as [d'|] eqn:Hp.
    - destruct Hin as [<-|Hin].
      + exists e. split; [left; reflexivity|exact Hp].
      + destruct (IH Hin) as (e' & He' & Hp'). exists e'.
        split; [right; exact He'|exact Hp'].
    - destruct (IH Hin) as (e' & He' & Hp'). exists e'.
      split; [right; exact He'|exact Hp']. }
  split; [exact Hsrc|]. destruct Hsrc as (e & _ & Hp).
  unfold parse_element in Hp.
  destruct (match desc_elem e with Some text => Some text
            | None => title_elem e end) as [text|]; [|discriminate].
  injection Hp as <-. cbn.
  split; [reflexivity|].
  split.
  { pose proof (first_genre_labels (lower text)) as H. exact H. }
  split; [destruct (title_elem e); [apply clean_text_fixed|reflexivity]|].
  split; [destruct (date_elem e); [apply clean_text_fixed|reflexivity]|].
  unfold get_ticket_info.
  destruct (contains "free" (lower (element_text e))).
  - cbn. split; [left; reflexivity|reflexivity].
  - destruct (ticket_elem e); cbn.
    + split; [right; left; reflexivity|discriminate].
    + split; [right; right; left; reflexivity|discriminate].
Qed.

(** ** The empty venue *)

(** [if venue:] takes the empty string for no venue: with it no visit is
    recorded for a stored artist, and a new artist is saved instead of the
    call raising on the missing id. *)
Theorem empty_venue_is_no_venue `{rt : runtime} (name : string) (w : world) :
  process_artist name (Some "") w = process_artist name None w.
Proof.
  unfold process_artist, bind.
  destruct (get_artist_from_db name w) as [[[r|]|e] w0]; reflexivity.
Qed.

(** ** The further properties at concrete inputs *)

Definition lookup_failing_world : world :=
  {| db := demo_db; txn := demo_db; fault := None; faults := [Some 1%nat];
     clock := 200; log := [] |}.

Section MoreWitnesses.

#[local] Existing Instance online.

Let allstars : string := "Radio Room Allstars".

Let the_band : artist_row :=
  {| a_id := 1; a_name := "The Band"; a_is_local := true;
     a_verification_source := "spotify"; a_last_updated := 100 |}.

Lemma save_then_lookup_witness :
  select_artist allstars (db fresh_world) = None /\
  exists w1 w2,
    save_artist_to_db demo_candidate fresh_world = (Ok tt, w1) /\
    get_artist_from_db allstars w1 =
      (Ok (Some
        (<["id" := VInt (next_rowid (artists (db fresh_world)))]>
        (<["name" := VStr allstars]>
        (<["is_local" := VInt (Z.b2z false)]>
        (<["verification_source" :=
             VStr (String.concat "," ["spotify"; "facebook"])]>
        (<["last_updated" := VDatetime (clock fresh_world)]>
        (<["genres" := VStrList (set_iter ["rock"; "blues"; "rock"])]>
        (<["venues" :=
             VVenueList
               (select_venues (next_rowid (artists (db fresh_world)))
                  (db fresh_world))]> ∅)))))))), w2) /\
    db w2 = db w1.
Proof.
  split; [reflexivity|].
  apply (save_then_lookup demo_candidate fresh_world allstars false
           ["spotify"; "facebook"] ["rock"; "blues"; "rock"] 0.8%float);
    first [reflexivity | exact fk_genres_empty].
Defined.

Lemma process_artist_keeps_artists_unique_witness :
  unique_artists (db demo_world) /\
  unique_artists
    (db (snd (process_artist "the band" None demo_world))).
Proof.
  assert (H : unique_artists (db demo_world))
    by (split; apply NoDup_singleton).
  split; [exact H|].
  apply (process_artist_keeps_artists_unique "the band" None demo_world H).
Defined.

Lemma visits_accumulate_witness :
  select_artist "The Band" (db demo_world) = Some the_band /\
  exists r1 w1 r2 w2,
    process_artist "The Band" (Some "Gottrocks") demo_world = (Ok r1, w1) /\
    process_artist "The Band" (Some "Gottrocks") (at_time 200 w1)
      = (Ok r2, w2) /\
    artist_venues (db w2) =
      artist_venues (db demo_world) ++
      [{| v_artist_id := a_id the_band; v_venue := "Gottrocks";
          v_last_played := clock demo_world |};
       {| v_artist_id := a_id the_band; v_venue := "Gottrocks";
          v_last_played := 200 |}] /\
    r1 !! "venues" =
      Some (VVenueList (select_venues (a_id the_band) (db demo_world))) /\
    r2 !! "venues" =
      Some (VVenueList (select_venues (a_id the_band) (db demo_world) ++
                        [("Gottrocks", clock demo_world)])).
Proof.
  split; [reflexivity|].
  apply (visits_accumulate "The Band" "Gottrocks" "Gottrocks" 200
           demo_world the_band);
    first [reflexivity | discriminate].
Defined.

Lemma orphan_visit_is_adopted_witness :
  select_artist "X" (db fresh_world) = None /\
  exists w1 r w2 r' w3,
    update_venue_info (VInt (next_rowid (artists (db fresh_world))))
      "Gottrocks" fresh_world = (Ok tt, w1) /\
    process_artist "X" None w1 = (Ok r, w2) /\
    get_artist_from_db "X" w2 = (Ok (Some r'), w3) /\
    r' !! "id" = Some (VInt (next_rowid (artists (db fresh_world)))) /\
    r' !! "venues" =
      Some (VVenueList
              (select_venues (next_rowid (artists (db fresh_world)))
                 (db fresh_world) ++
               [("Gottrocks", clock fresh_world)])).
Proof.
  split; [reflexivity|].
  apply (orphan_visit_is_adopted "X" "Gottrocks" fresh_world); reflexivity.
Defined.

Lemma failed_lookup_hides_stored_artist_witness :
  select_artist "The Band" (db lookup_failing_world) = Some the_band /\
  (exists w', get_artist_from_db "The Band" lookup_failing_world
                = (Ok None, w') /\
              db w' = db lookup_failing_world) /\
  (truthy None = false ->
   exists w',
     process_artist "The Band" None lookup_failing_world
       = (Ok (gathered "The Band"), w') /\
     gathered "The Band" !! "id" = None /\
     db w' = db lookup_failing_world /\
     firstn 3 (log w') =
       [EvRollback; EvPrintDatabaseError unique_name_failed;
        EvInsertArtist "The Band"]) /\
  (truthy None = true ->
   exists w',
     process_artist "The Band" None lookup_failing_world
       = (Raise (KeyError "id"), w') /\
     db w' = db lookup_failing_world).
Proof.
  split; [reflexivity|].
  apply (failed_lookup_hides_stored_artist "The Band" None
           lookup_failing_world 1 the_band); first [reflexivity | lia].
Defined.

Lemma catalog_match_is_stored_under_the_query_witness :
  demo_search "Band" =
    SearchItems [{| sp_name := "The Band"; sp_genres := ["roots rock"];
                    sp_popularity := 63;
                    sp_id := "4vpDg7Y7fU982Ds30zawDA" |}] /\
  exists r w' row,
    process_artist "Band" None fresh_world = (Ok r, w') /\
    r !! "spotify_id" = Some (VStr "4vpDg7Y7fU982Ds30zawDA") /\
    select_artist "Band" (db w') = Some row /\
    a_verification_source row = "spotify" /\
    select_genres (a_id row) (db w') = set_iter ["roots rock"] /\
    artist_genres (db w') =
      artist_genres (db fresh_world) ++
      map (fun g => {| g_artist_id := a_id row; g_genre := g;
                       g_confidence :=
                         if String.eqb (str_lower "The Band")
                                       (str_lower "Band")
                         then 0.8%float else 0.5%float;
                       g_source := "spotify" |})
          (set_iter ["roots rock"]) /\
    select_artist "The Band" (db w') =
      select_artist "The Band" (db fresh_world).
Proof.
  split; [reflexivity|].
  apply (catalog_match_is_stored_under_the_query "Band" fresh_world
           demo_search
           {| sp_name := "The Band"; sp_genres := ["roots rock"];
              sp_popularity := 63; sp_id := "4vpDg7Y7fU982Ds30zawDA" |} []);
    first [reflexivity | exact fk_genres_empty | discriminate].
Defined.

Let facebook : fragment :=
  {| f_genres := ["rock"]; f_sources := ["facebook"]; f_is_local := true |}.

Let venues_page : fragment :=
  {| f_genres := []; f_sources := ["radioroom"]; f_is_local := false |}.

Lemma merge_fragment_twice_witness :
  exists info1 info2,
    merge_fragment demo_candidate facebook fresh_world
      = (Ok info1, fresh_world) /\
    merge_fragment info1 venues_page fresh_world = (Ok info2, fresh_world) /\
    info2 !! "is_local" =
      Some (VBool (false || f_is_local facebook || f_is_local venues_page)) /\
    info2 !! "genres" =
      Some (VStrList (["rock"; "blues"; "rock"] ++ f_genres facebook ++
                      f_genres venues_page)) /\
    info2 !! "sources" =
      Some (VStrList (["spotify"; "facebook"] ++ f_sources facebook ++
                      f_sources venues_page)) /\
    forall k, k <> "is_local" -> k <> "genres" -> k <> "sources" ->
      info2 !! k = demo_candidate !! k.
Proof.
  apply (merge_fragment_twice demo_candidate facebook venues_page
           fresh_world false ["rock"; "blues"; "rock"]
           ["spotify"; "facebook"]); reflexivity.
Defined.

End MoreWitnesses.

Lemma clean_text_words_witness :
  all_chars is_ascii "  The   Band " = true /\
  clean_text "  The   Band " = String.concat " " (split "  The   Band ") /\
  Forall word (split "  The   Band ") /\
  split (clean_text "  The   Band ") = split "  The   Band ".
Proof.
  split; [reflexivity|].
  apply (clean_text_words "  The   Band "). reflexivity.
Defined.

Lemma clean_text_empty_iff_witness :
  all_chars is_ascii "   " = true /\
  (clean_text "   " = EmptyString <-> all_chars is_space "   " = true).
Proof.
  split; [reflexivity|].
  apply (clean_text_empty_iff "   "). reflexivity.
Defined.

Lemma extract_genre_rock_first_witness :
  In (lower "ROCK") ["rock"; "alternative"; "punk"; "metal"] /\
  extract_genre ("Bed" ++ "ROCK" ++ " Bluegrass Revue")%string = "Rock".
Proof.
  split; [left; reflexivity|].
  apply (extract_genre_rock_first "Bed" "ROCK" " Bluegrass Revue").
  left. reflexivity.
Defined.

(** An element with a title only, one with nothing but a date, and one
    with a description and no title. *)
Definition titled : event_element :=
  {| title_elem := Some "  The   Band "; date_elem := Some "Fri @ 8pm";
     desc_elem := None; ticket_elem := Some "https://tix.example/tickets/1";
     element_text := "The Band Fri @ 8pm Tickets" |}.

Definition bare : event_element :=
  {| title_elem := None; date_elem := Some "Sat @ 9pm"; desc_elem := None;
     ticket_elem := None; element_text := "Sat @ 9pm" |}.

Definition untitled : event_element :=
  {| title_elem := None; date_elem := None;
     desc_elem := Some "Smoke-free jazz brunch"; ticket_elem := None;
     element_text := "Smoke-free jazz brunch" |}.

Lemma bare_elements_are_dropped_witness :
  scrape_events ([titled] ++ bare :: [untitled])
    = scrape_events ([titled] ++ [untitled]) /\
  (forall other d,
     parse_element other = Some d -> title_elem other = None ->
     band_name d = "TBA" /\ exists text, desc_elem other = Some text /\
                                         genre d = extract_genre text).
Proof.
  apply (bare_elements_are_dropped [titled] [untitled] bare); reflexivity.
Defined.

Definition untitled_event : event_data :=
  {| venue := "Doc's Tavern"; band_name := "TBA"; date_time := "TBA";
     genre := "Jazz"; ticket_status := "Free"; ticket_link := "" |}.

Lemma scraped_events_are_well_formed_witness :
  In untitled_event (scrape_events [titled; bare; untitled]) /\
  (exists event, In event [titled; bare; untitled] /\
                 parse_element event = Some untitled_event) /\
  venue untitled_event = "Doc's Tavern" /\
  In (genre untitled_event)
     ["Rock"; "Country"; "Jazz"; "Pop"; "Hip Hop"; "Various/Unknown"] /\
  clean_text (band_name untitled_event) = band_name untitled_event /\
  clean_text (date_time untitled_event) = date_time untitled_event /\
  In (ticket_status untitled_event)
     ["Free"; "Tickets Required"; "Contact Venue"] /\
  (ticket_status untitled_event = "Free" -> ticket_link untitled_event = "").
Proof.
  assert (H : In untitled_event (scrape_events [titled; bare; untitled]))
    by (vm_compute; right; left; reflexivity).
  split; [exact H|].
  apply (scraped_events_are_well_formed [titled; bare; untitled]
           untitled_event H).
Defined.
